(** * Shallow embedding of [property_poster.py] (RealEstateSync)

    The Selenium driver is an oracle: for every call it decides, from the
    current clock and the history of calls, whether the call raises and what
    it answers.  The program state threaded through the embedding is the
    world of the driver (clock, call history, whether [self.driver] is set)
    and, inside the site adapters, the [result] dict that [post_listing]
    creates and the adapters mutate in place. *)

From Stdlib Require Import String List Bool Arith Lia Ascii ZArith.
Import ListNotations.
Open Scope string_scope.

(** ** Data model *)

(** [selenium.webdriver.common.by.By] *)
Inductive By := ID | XPATH | CSS_SELECTOR.

Definition by_str (b : By) : string :=
  match b with ID => "id" | XPATH => "xpath" | CSS_SELECTOR => "css selector" end.

Definition locator := (By * string)%type.

Definition by_eqb (a b : By) : bool :=
  match a, b with
  | ID, ID | XPATH, XPATH | CSS_SELECTOR, CSS_SELECTOR => true
  | _, _ => false
  end.

Definition locator_eqb (l1 l2 : locator) : bool :=
  by_eqb (fst l1) (fst l2) && String.eqb (snd l1) (snd l2).

(** Exception classes met by the code.  All of them are subclasses of
    Python's [Exception]; the first four are Selenium's, and
    [TimeoutException], [NoSuchElementException] and
    [ElementNotInteractableException] are subclasses of [WebDriverException]. *)
Inductive exn_kind :=
| TimeoutException
| NoSuchElementException
| ElementNotInteractableException
| WebDriverException
| ValueError
| KeyError
| OtherException.              (* any other class, such as TypeError *)

Record exn := mkExn { exn_type : exn_kind; exn_str : string }.

Definition is_webdriver_exc (k : exn_kind) : bool :=
  match k with
  | TimeoutException | NoSuchElementException
  | ElementNotInteractableException | WebDriverException => true
  | _ => false
  end.

(** [except Exception]: every modelled exception class. *)
Definition is_exception (k : exn_kind) : bool := true.
Definition is_timeout (k : exn_kind) : bool :=
  match k with TimeoutException => true | _ => false end.
Definition is_no_such_element (k : exn_kind) : bool :=
  match k with NoSuchElementException => true | _ => false end.
(** [except (ElementNotInteractableException, WebDriverException)] *)
Definition is_click_error (k : exn_kind) : bool :=
  match k with
  | ElementNotInteractableException => true
  | k => is_webdriver_exc k
  end.

Inductive level := INFO | WARNING | ERROR | EXCEPTION.

(** Calls made by the program: driver calls, [time.sleep] and logging.
    An element handle is named by the locator it was found with. *)
Inductive call :=
| StartDriver (browser : string) (headless : bool)
| MaximizeWindow
| Quit
| Get (url : string)
| FindElement (l : locator)
| FindElements (l : locator)
| WaitVisible (l : locator) (timeout : nat)
| WaitPresent (l : locator) (timeout : nat)
| IsDisplayed (l : locator)
| Clear (l : locator)
| SendKeys (l : locator) (keys : string)
| Click (l : locator)
| SelectByVisibleText (l : locator) (text : string)
| GetAttribute (l : locator) (name : string)
| CurrentUrl
| Sleep (secs : nat)
| Log (lvl : level) (msg : string).

(** Calls that touch the browser (everything but sleeping and logging). *)
Definition browser_call (c : call) : bool :=
  match c with Sleep _ | Log _ _ => false | _ => true end.

Definition call_eq_dec (c1 c2 : call) : {c1 = c2} + {c1 <> c2}.
Proof.
  decide equality;
    try apply string_dec; try apply Nat.eq_dec; try apply bool_dec;
    try (decide equality; try apply string_dec; decide equality);
    decide equality.
Defined.

Definition call_eqb (c1 c2 : call) : bool :=
  if call_eq_dec c1 c2 then true else false.

(** A history entry: the clock when the call was issued, and the call. *)
Definition event := (nat * call)%type.

(** The world seen by the program: [time.time()], the calls made so far
    (most recent first) and whether [self.driver] holds a started driver. *)
Record World := mkWorld {
  clock : nat;
  trace : list event;
  driver_set : bool }.

(** The driver and the host: answers and exceptions of every call, as a
    function of the clock and the history; [latency] is how long a call
    takes; [abspath] is [os.path.abspath]. *)
Record Env := mkEnv {
  raises : nat -> list event -> call -> option exn;
  answer_bool : nat -> list event -> call -> bool;
  answer_str : nat -> list event -> call -> string;
  answer_opt_str : nat -> list event -> call -> option string;
  answer_count : nat -> list event -> call -> nat;
  latency : nat -> list event -> call -> nat;
  abspath : string -> string }.

(** [PropertyDetails]; [area] is a float in the source and is only ever
    rendered with [str()], so the model keeps that rendering. *)
Record PropertyDetails := mkPD {
  title : string;
  description : string;
  price : string;
  bedrooms : nat;
  bathrooms : nat;
  area : string;
  location : string;
  city : string;
  address : string;
  property_type : string;
  features : list string;
  contact_phone : string;
  contact_email : string;
  images : list string }.

(** A [Dict[str, str]] of credentials. *)
Definition Creds := list (string * string).

Fixpoint dict_lookup (k : string) (d : Creds) : option string :=
  match d with
  | [] => None
  | (k', v) :: d' => if String.eqb k k' then Some v else dict_lookup k d'
  end.

Definition dict_has (k : string) (d : Creds) : bool :=
  match dict_lookup k d with Some _ => true | None => false end.

(** The [result] dict built by [post_listing]. *)
Record PostResult := mkResult {
  site : string;
  success : bool;
  message : string;
  listing_url : option string }.

(** [str()] of a non-negative int. *)
Fixpoint digits_of (fuel n : nat) (acc : string) : string :=
  match fuel with
  | O => acc
  | S f =>
      let d := String (ascii_of_nat (48 + Nat.modulo n 10)) acc in
      if Nat.ltb n 10 then d else digits_of f (Nat.div n 10) d
  end.

Definition str_nat (n : nat) : string := digits_of (S n) n "".

(** [s in t] for strings. *)
Definition str_contains (s t : string) : bool :=
  match String.index 0 s t with Some _ => true | None => false end.

(** [str.lower] on ASCII letters. *)
Definition lower_ascii (a : ascii) : ascii :=
  let n := nat_of_ascii a in
  if Nat.leb 65 n && Nat.leb n 90 then ascii_of_nat (n + 32) else a.

Fixpoint lower (s : string) : string :=
  match s with
  | EmptyString => EmptyString
  | String a s' => String (lower_ascii a) (lower s')
  end.

(** ** Effects *)

Inductive res (A : Type) : Type :=
| Ok (a : A)
| Raise (e : exn).
Arguments Ok {A} a.
Arguments Raise {A} e.

Class MonadOps (m : Type -> Type) := {
  mret : forall {A}, A -> m A;
  mbind : forall {A B}, m A -> (A -> m B) -> m B }.

Notation "x <- m ;; k" := (mbind m (fun x => k))
  (at level 61, m at next level, right associativity).
Notation "m ;; k" := (mbind m (fun _ => k)) (at level 61, right associativity).

(** Code that drives the browser: a state and exception monad over [World]. *)
Definition D (A : Type) := World -> res A * World.

Definition dret {A} (a : A) : D A := fun w => (Ok a, w).

Definition dbind {A B} (m : D A) (f : A -> D B) : D B := fun w =>
  match m w with
  | (Ok a, w') => f a w'
  | (Raise e, w') => (Raise e, w')
  end.

#[global] Instance D_monad : MonadOps D := { mret := @dret; mbind := @dbind }.

Definition dthrow {A} (e : exn) : D A := fun w => (Raise e, w).

(** [try: m except <classes> as e: h e] *)
Definition dtry {A} (m : D A) (catches : exn_kind -> bool) (h : exn -> D A) : D A :=
  fun w =>
    match m w with
    | (Ok a, w') => (Ok a, w')
    | (Raise e, w') => if catches (exn_type e) then h e w' else (Raise e, w')
    end.

(** The code of the adapters, which also mutates the [result] dict. *)
Definition R (A : Type) := PostResult -> World -> res A * PostResult * World.

Definition rret {A} (a : A) : R A := fun r w => (Ok a, r, w).

Definition rbind {A B} (m : R A) (f : A -> R B) : R B := fun r w =>
  match m r w with
  | (Ok a, r', w') => f a r' w'
  | (Raise e, r', w') => (Raise e, r', w')
  end.

#[global] Instance R_monad : MonadOps R := { mret := @rret; mbind := @rbind }.

Definition rtry {A} (m : R A) (catches : exn_kind -> bool) (h : exn -> R A) : R A :=
  fun r w =>
    match m r w with
    | (Ok a, r', w') => (Ok a, r', w')
    | (Raise e, r', w') => if catches (exn_type e) then h e r' w' else (Raise e, r', w')
    end.

Definition lift {A} (m : D A) : R A := fun r w =>
  let '(x, w') := m w in (x, r, w').

Definition set_success (b : bool) : R unit := fun r w =>
  (Ok tt, mkResult (site r) b (message r) (listing_url r), w).

Definition set_message (m : string) : R unit := fun r w =>
  (Ok tt, mkResult (site r) (success r) m (listing_url r), w).

Definition set_listing_url (u : option string) : R unit := fun r w =>
  (Ok tt, mkResult (site r) (success r) (message r) u, w).

Definition get_message : R string := fun r w => (Ok (message r), r, w).

(** [time.time()] *)
Definition time_time : D nat := fun w => (Ok (clock w), w).

(** [time.sleep(n)] *)
Definition sleep (n : nat) : D unit := fun w =>
  (Ok tt, mkWorld (clock w + n) ((clock w, Sleep n) :: trace w) (driver_set w)).

(** [logger.<lvl>(msg)] *)
Definition log (lvl : level) (msg : string) : D unit := fun w =>
  (Ok tt, mkWorld (clock w) ((clock w, Log lvl msg) :: trace w) (driver_set w)).

Section Program.

Variable env : Env.

Definition issue (c : call) (w : World) : World :=
  mkWorld (clock w + latency env (clock w) (trace w) c)
          ((clock w, c) :: trace w) (driver_set w).

(** A driver call answered by the oracle. *)
Definition ask {A} (answer : Env -> nat -> list event -> call -> A) (c : call) : D A :=
  fun w =>
    match raises env (clock w) (trace w) c with
    | Some e => (Raise e, issue c w)
    | None => (Ok (answer env (clock w) (trace w) c), issue c w)
    end.

Definition perform (c : call) : D unit := ask (fun _ _ _ _ => tt) c.

(** [d[k]] on a dict: [KeyError] when [k] is missing. *)
Definition getitem (d : Creds) (k : string) : D string :=
  match dict_lookup k d with
  | Some v => dret v
  | None => dthrow (mkExn KeyError k)
  end.

(** ** Element interaction primitives *)

(** [PropertyPoster.wait_for_element] *)
Definition wait_for_element (l : locator) (timeout : nat) : D locator :=
  dtry (perform (WaitVisible l timeout) ;; mret l)
       is_timeout
       (fun e => log ERROR ("Element not found: " ++ by_str (fst l) ++ "=" ++ snd l) ;;
                 dthrow e).

(** The [for attempt in range(max_attempts)] loop of [safe_click]: the
    inner [Some v] is a [return v], [None] goes on with the next attempt;
    leaving the loop returns Python's [None]. *)
Fixpoint safe_click_loop (attempts : list nat) (max_attempts : nat)
    (element : locator) : D (option bool) :=
  match attempts with
  | [] => mret None
  | attempt :: rest =>
      r <- dtry (perform (Click element) ;; mret (Some (Some true)))
                is_click_error
                (fun e =>
                   if Nat.ltb attempt (max_attempts - 1) then
                     log WARNING ("Click failed, retrying... (" ++ exn_str e ++ ")") ;;
                     sleep 1 ;;
                     mret None
                   else
                     log ERROR ("Failed to click element: " ++ exn_str e) ;;
                     mret (Some (Some false))) ;;
      match r with
      | Some v => mret v
      | None => safe_click_loop rest max_attempts element
      end
  end.

(** [PropertyPoster.safe_click] *)
Definition safe_click (element : locator) : D (option bool) :=
  safe_click_loop (seq 0 3) 3 element.

(** ** Challenge handler *)

Definition captcha_indicators : list locator :=
  [(ID, "captcha"); (CSS_SELECTOR, ".g-recaptcha");
   (XPATH, "//iframe[contains(@src, 'recaptcha')]")].

(** One pass of the body of the [while] loop of [handle_captcha]:
    [Some true] is the [return True] of its handler, [None] loops again. *)
Definition captcha_poll (l : locator) : D (option bool) :=
  dtry (perform (FindElement l) ;; sleep 2 ;; mret None)
       is_no_such_element
       (fun _ => log INFO "CAPTCHA appears to be solved" ;; mret (Some true)).

(** [while time.time() - start_time < timeout: ...] followed by the
    timed-out exit.  Each pass sleeps 2, so [timeout] passes are enough; the
    [fuel] exhausted case leaves the loop as the timed-out exit does. *)
Fixpoint captcha_wait (fuel : nat) (l : locator) (start timeout : nat) : D bool :=
  now <- time_time ;;
  if Nat.ltb (now - start) timeout then
    r <- captcha_poll l ;;
    match r with
    | Some b => mret b
    | None =>
        match fuel with
        | O => log ERROR "CAPTCHA solving timed out" ;; mret false
        | S f => captcha_wait f l start timeout
        end
    end
  else
    log ERROR "CAPTCHA solving timed out" ;; mret false.

(** The [for by, value in captcha_indicators] loop; the [print] prompts to
    the operator are not modelled. *)
Fixpoint captcha_scan (indicators : list locator) (timeout : nat) : D bool :=
  match indicators with
  | [] => mret true
  | l :: rest =>
      r <- dtry (perform (FindElement l) ;;
                 d <- ask answer_bool (IsDisplayed l) ;;
                 if d then
                   log WARNING "CAPTCHA detected! Please solve it manually." ;;
                   start_time <- time_time ;;
                   b <- captcha_wait timeout l start_time timeout ;;
                   mret (Some b)
                 else mret None)
                is_no_such_element
                (fun _ => mret None) ;;
      match r with
      | Some b => mret b
      | None => captcha_scan rest timeout
      end
  end.

(** [PropertyPoster.handle_captcha] *)
Definition handle_captcha (timeout : nat) : D bool :=
  captcha_scan captcha_indicators timeout.


(** ** Site adapters *)

(** [_login_to_njoftime], [_login_to_merrjep] and [_login_to_indomio]: the
    three helpers are the same code up to the site name in the log lines. *)
Definition login_to (site_name : string) (credentials : Creds) : D bool :=
  dtry
    (if match credentials with [] => true | _ => false end
        || negb (dict_has "username" credentials)
        || negb (dict_has "password" credentials)
     then
       log ERROR ("Missing " ++ site_name ++ " credentials") ;;
       mret false
     else
       username_field <- wait_for_element (ID, "email") 10 ;;
       perform (Clear username_field) ;;
       u <- getitem credentials "username" ;;
       perform (SendKeys username_field u) ;;
       password_field <- wait_for_element (ID, "password") 10 ;;
       perform (Clear password_field) ;;
       p <- getitem credentials "password" ;;
       perform (SendKeys password_field p) ;;
       login_button <- wait_for_element (XPATH, "//button[@type='submit']") 10 ;;
       safe_click login_button ;;
       dtry (perform (WaitPresent (XPATH, "//a[contains(@href, 'logout')]") 10) ;;
             log INFO ("Successfully logged in to " ++ site_name) ;;
             mret true)
            is_timeout
            (fun _ => log ERROR ("Failed to login to " ++ site_name) ;; mret false))
    is_exception
    (fun e => log EXCEPTION ("Login error: " ++ exn_str e) ;; mret false).

Definition _login_to_njoftime := login_to "njoftime.com".
Definition _login_to_merrjep := login_to "merrjep.al".
Definition _login_to_indomio := login_to "indomio.al".

(** [field = self.wait_for_element(By.ID, id); field.clear(); field.send_keys(v)] *)
Definition fill_field (id : string) (v : string) : D unit :=
  f <- wait_for_element (ID, id) 10 ;;
  perform (Clear f) ;;
  perform (SendKeys f v).

(** The image upload loop
    [for image_path in images[:cap]: try: ... except Exception as e: log]. *)
Fixpoint upload_images (upload_loc : locator) (paths : list string) : D unit :=
  match paths with
  | [] => mret tt
  | image_path :: rest =>
      dtry (upload_input <- wait_for_element upload_loc 10 ;;
            perform (SendKeys upload_input (abspath env image_path)) ;;
            sleep 2)
           is_exception
           (fun e => log ERROR ("Failed to upload image " ++ image_path ++ ": " ++ exn_str e)) ;;
      upload_images upload_loc rest
  end.

(** What distinguishes the three [_post_to_*] methods, which otherwise run
    the same statements in the same order: login page, login helper,
    posting page, the form steps (category selection and field filling),
    the image ceiling and upload input, the success indicator, and how the
    listing URL is looked for ([Some u]: [result["listing_url"] = u]). *)
Record Adapter := mkAdapter {
  ad_name : string;
  ad_login_url : string;
  ad_login : Creds -> D bool;
  ad_post_url : string;
  ad_form : PropertyDetails -> D unit;
  ad_image_cap : nat;
  ad_upload_loc : locator;
  ad_success_loc : locator;
  ad_listing_url : D (option (option string)) }.

Definition submit_loc : locator := (XPATH, "//button[@type='submit']").

(** The body shared by [_post_to_njoftime_com], [_post_to_merrjep_al] and
    [_post_to_indomio_al]; [result] is the state of the [R] monad. *)
Definition post_to_site (a : Adapter) (property_details : PropertyDetails)
    (credentials : Creds) : R unit :=
  rtry
    (lift (perform (Get (ad_login_url a))) ;;
     lift (log INFO ("Navigating to " ++ ad_name a ++ " login page")) ;;
     ok <- lift (ad_login a credentials) ;;
     if negb ok then set_message "Login failed" else
     lift (perform (Get (ad_post_url a))) ;;
     lift (log INFO "Navigating to posting page") ;;
     lift (ad_form a property_details) ;;
     lift (match images property_details with
           | [] => mret tt
           | _ => upload_images (ad_upload_loc a)
                                (firstn (ad_image_cap a) (images property_details))
           end) ;;
     solved <- lift (handle_captcha 60) ;;
     if negb solved then set_message "Captcha handling failed" else
     submit_button <- lift (wait_for_element submit_loc 10) ;;
     lift (safe_click submit_button) ;;
     rtry (lift (perform (WaitVisible (ad_success_loc a) 15)) ;;
           set_success true ;;
           set_message "Listing posted successfully" ;;
           u <- lift (ad_listing_url a) ;;
           match u with
           | Some url => set_listing_url url
           | None => mret tt
           end)
          is_timeout
          (fun _ => set_message "Could not confirm successful posting"))
    is_exception
    (fun e => set_message ("Error: " ++ exn_str e) ;;
              lift (log EXCEPTION ("Error during " ++ ad_name a ++ " posting"))).

(** Lines 293-307 of [_post_to_njoftime_com]. *)
Definition njoftime_form (pd : PropertyDetails) : D unit :=
  category <- wait_for_element (XPATH, "//a[contains(text(), 'Shtepi')]") 10 ;;
  perform (Click category) ;;
  fill_field "title" (title pd) ;;
  fill_field "description" (description pd) ;;
  fill_field "price" (price pd).

Definition listing_links : locator := (XPATH, "//a[contains(@href, '/listing/')]").

(** [listing_links = find_elements(...); if listing_links:
    result["listing_url"] = listing_links[0].get_attribute("href")] *)
Definition listing_link_url : D (option (option string)) :=
  n <- ask answer_count (FindElements listing_links) ;;
  if Nat.ltb 0 n then
    u <- ask answer_opt_str (GetAttribute listing_links "href") ;;
    mret (Some u)
  else mret None.

Definition njoftime : Adapter := {|
  ad_name := "njoftime.com";
  ad_login_url := "https://njoftime.com/login";
  ad_login := _login_to_njoftime;
  ad_post_url := "https://njoftime.com/post-ad";
  ad_form := njoftime_form;
  ad_image_cap := 5;
  ad_upload_loc := (XPATH, "//input[@type='file']");
  ad_success_loc := (XPATH, "//div[contains(@class, 'alert-success')]");
  ad_listing_url := listing_link_url |}.

(** Lines 398-420 of [_post_to_merrjep_al]. *)
Definition merrjep_form (pd : PropertyDetails) : D unit :=
  c1 <- wait_for_element (XPATH, "//a[contains(text(), 'Prona')]") 10 ;;
  perform (Click c1) ;;
  c2 <- wait_for_element (XPATH, "//a[contains(text(), 'Apartamente')]") 10 ;;
  perform (Click c2) ;;
  fill_field "title" (title pd) ;;
  fill_field "description" (description pd) ;;
  fill_field "price" (price pd) ;;
  fill_field "location" (city pd) ;;
  location_options <- wait_for_element (XPATH, "//ul[@id='locationlist']/li") 10 ;;
  safe_click location_options ;;
  mret tt.

Definition merrjep : Adapter := {|
  ad_name := "merrjep.al";
  ad_login_url := "https://www.merrjep.al/login";
  ad_login := _login_to_merrjep;
  ad_post_url := "https://www.merrjep.al/post-ad";
  ad_form := merrjep_form;
  ad_image_cap := 10;
  ad_upload_loc := (XPATH, "//input[@type='file']");
  ad_success_loc := (XPATH, "//div[contains(@class, 'alert-success')]");
  ad_listing_url := listing_link_url |}.

(** Lines 511-541 of [_post_to_indomio_al]. *)
Definition indomio_form (pd : PropertyDetails) : D unit :=
  fill_field "title" (title pd) ;;
  fill_field "description" (description pd) ;;
  fill_field "price" (price pd) ;;
  property_type_select <- wait_for_element (ID, "property_type") 10 ;;
  perform (SelectByVisibleText property_type_select "Apartament") ;;
  fill_field "bedrooms" (str_nat (bedrooms pd)) ;;
  fill_field "bathrooms" (str_nat (bathrooms pd)) ;;
  fill_field "area" (area pd).

(** [current_url = self.driver.current_url; if "property" in current_url:
    result["listing_url"] = current_url] *)
Definition current_url_if_property : D (option (option string)) :=
  current_url <- ask answer_str CurrentUrl ;;
  if str_contains "property" current_url then mret (Some (Some current_url))
  else mret None.

Definition indomio : Adapter := {|
  ad_name := "indomio.al";
  ad_login_url := "https://indomio.al/login";
  ad_login := _login_to_indomio;
  ad_post_url := "https://indomio.al/user/properties/add";
  ad_form := indomio_form;
  ad_image_cap := 15;
  ad_upload_loc := (ID, "property_images");
  ad_success_loc := (CSS_SELECTOR, ".alert-success");
  ad_listing_url := current_url_if_property |}.

Definition _post_to_njoftime_com := post_to_site njoftime.
Definition _post_to_merrjep_al := post_to_site merrjep.
Definition _post_to_indomio_al := post_to_site indomio.

(** ** Posting orchestration *)

Definition init_result (s : string) : PostResult := mkResult s false "" None.

(** [PropertyPoster.post_listing]: the [result] dict is created here, the
    adapter mutates it, and it is returned. *)
Definition post_listing (s : string) (property_details : PropertyDetails)
    (credentials : Creds) : D PostResult :=
  fun w =>
    let body : R unit :=
      rtry
        (if String.eqb s "njoftime.com" then _post_to_njoftime_com property_details credentials
         else if String.eqb s "merrjep.al" then _post_to_merrjep_al property_details credentials
         else if String.eqb s "indomio.al" then _post_to_indomio_al property_details credentials
         else
           set_message ("Unsupported site: " ++ s) ;;
           m <- get_message ;;
           lift (log ERROR m))
        is_exception
        (fun e => set_message ("Error: " ++ exn_str e) ;;
                  lift (log EXCEPTION ("Error posting to " ++ s))) in
    match body (init_result s) w with
    | (Ok _, r, w') => (Ok r, w')
    | (Raise e, _, w') => (Raise e, w')
    end.

(** A JSON document whose top level is not an object, as [json.load]
    returns it: an array (its string items as [Some], the others as
    [None]), a string, or a number, [true], [false] or [null] (named by
    the Python type of the value). *)
Inductive json_other :=
| JArray (items : list (option string))
| JString (text : string)
| JScalar (type_name : string).

(** [key in v]: membership for a list, substring for a string, and a
    [TypeError] for the other values. *)
Definition json_contains (key : string) (v : json_other) : D bool :=
  match v with
  | JArray items =>
      mret (existsb (fun i => match i with Some x => String.eqb x key | None => false end) items)
  | JString text => mret (str_contains key text)
  | JScalar tn => dthrow (mkExn OtherException ("argument of type '" ++ tn ++ "' is not iterable"))
  end.

(** The [TypeError] raised by [v[key]] for a string [key]. *)
Definition json_index_error (v : json_other) : exn :=
  match v with
  | JArray _ => mkExn OtherException "list indices must be integers or slices, not str"
  | JString _ => mkExn OtherException "string indices must be integers, not 'str'"
  | JScalar tn => mkExn OtherException ("'" ++ tn ++ "' object is not subscriptable")
  end.

(** The content of the configuration file as [json.load] sees it.  In an
    object, the value of each site is a dict of strings. *)
Inductive config_file :=
| ConfigMissing (e : exn)                    (* FileNotFoundError *)
| ConfigBadJson (e : exn)                    (* json.JSONDecodeError *)
| ConfigOther (e : exn)                      (* any other error of open/read *)
| ConfigNotObject (v : json_other)           (* top level not an object *)
| ConfigOk (sites : list (string * Creds)).

Fixpoint config_lookup (s : string) (c : list (string * Creds)) : option Creds :=
  match c with
  | [] => None
  | (k, v) :: c' => if String.eqb s k then Some v else config_lookup s c'
  end.

(** [PropertyPoster.load_credentials] *)
Definition load_credentials (s : string) (cfg : config_file) : D Creds :=
  match cfg with
  | ConfigMissing e | ConfigBadJson e =>
      log ERROR ("Error loading credentials: " ++ exn_str e) ;; mret []
  | ConfigOther e => dthrow e
  | ConfigNotObject v =>
      present <- json_contains s v ;;
      if present then dthrow (json_index_error v)
      else log WARNING ("No credentials found for " ++ s) ;; mret []
  | ConfigOk c =>
      match config_lookup s c with
      | None => log WARNING ("No credentials found for " ++ s) ;; mret []
      | Some v => mret v
      end
  end.

(** The [for site in args.sites] loop of [main] (printing left out). *)
Fixpoint post_sites (sites : list string) (pd : PropertyDetails)
    (cfg : config_file) : D (list PostResult) :=
  match sites with
  | [] => mret []
  | s :: rest =>
      credentials <- load_credentials s cfg ;;
      result <- post_listing s pd credentials ;;
      sleep 2 ;;
      results <- post_sites rest pd cfg ;;
      mret (result :: results)
  end.

(** ** Browser session *)

(** [self.driver = webdriver.Chrome(options=options)] (or Firefox). *)
Definition start_driver (browser : string) (headless : bool) : D unit := fun w =>
  let c := StartDriver browser headless in
  match raises env (clock w) (trace w) c with
  | Some e => (Raise e, issue c w)
  | None => (Ok tt, mkWorld (clock (issue c w)) (trace (issue c w)) true)
  end.

(** [PropertyPoster.__enter__] *)
Definition __enter__ (browser : string) (headless : bool) : D unit :=
  let browser_type := lower browser in
  dtry ((if String.eqb browser_type "chrome" then start_driver "chrome" headless
         else if String.eqb browser_type "firefox" then start_driver "firefox" headless
         else dthrow (mkExn ValueError ("Unsupported browser: " ++ browser_type))) ;;
        perform MaximizeWindow ;;
        log INFO ("Browser initialized: " ++ browser_type ++ " (headless: "
                  ++ (if headless then "True" else "False") ++ ")"))
       is_webdriver_exc
       (fun e => log ERROR ("Failed to initialize browser: " ++ exn_str e) ;; dthrow e).

(** [PropertyPoster.__exit__] *)
Definition __exit__ : D unit := fun w =>
  if driver_set w then (perform Quit ;; log INFO "Browser closed") w else (Ok tt, w).

(** [with PropertyPoster(browser, headless) as poster: body]: when
    [__enter__] raises, the statement raises without running [__exit__];
    otherwise [__exit__] runs after the body however the body ends, and an
    exception of the body is raised again. *)
Definition with_poster {A} (browser : string) (headless : bool) (body : D A) : D A :=
  __enter__ browser headless ;;
  r <- dtry (x <- body ;; mret (inl x)) (fun _ => true) (fun e => mret (inr e)) ;;
  __exit__ ;;
  match r with
  | inl x => mret x
  | inr e => dthrow e
  end.

(** The part of [main] from [try: with PropertyPoster(...)] on. *)
Definition main_run (browser : string) (headless : bool) (sites : list string)
    (pd : PropertyDetails) (cfg : config_file) : D unit :=
  dtry (with_poster browser headless (post_sites sites pd cfg ;; mret tt))
       is_exception
       (fun e => log EXCEPTION ("Error in main process: " ++ exn_str e)).

End Program.

(** ** Loading the listing details *)

(** The ["property_details"] object of the configuration file as
    [load_property_details] reads it.  [None] is a key that is absent; for
    [features] and [images], [Some None] is a JSON [null].  Each value that
    is present has the type the dataclass declares for it, and [area] is
    kept as its [str()] rendering, as in [PropertyDetails]. *)
Record DetailsJson := mkDJ {
  dj_title : option string;
  dj_description : option string;
  dj_price : option string;
  dj_bedrooms : option nat;
  dj_bathrooms : option nat;
  dj_area : option string;
  dj_location : option string;
  dj_city : option string;
  dj_address : option string;
  dj_property_type : option string;
  dj_features : option (option (list string));
  dj_contact_phone : option string;
  dj_contact_email : option string;
  dj_images : option (option (list string)) }.

(** [details.get(key, default)] *)
Definition dict_get {A} (v : option A) (default : A) : A :=
  match v with Some x => x | None => default end.

(** [PropertyDetails(...)] followed by [__post_init__], which replaces a
    [None] for [features] or [images] by an empty list. *)
Definition PropertyDetails_new (title description price : string)
    (bedrooms bathrooms : nat) (area location city address property_type : string)
    (features : option (list string)) (contact_phone contact_email : string)
    (images : option (list string)) : PropertyDetails :=
  mkPD title description price bedrooms bathrooms area location city address
       property_type
       (match features with None => [] | Some l => l end)
       contact_phone contact_email
       (match images with None => [] | Some l => l end).

(** What [json.load] gives for the configuration file: an error of [open]
    or of the parser, a value that is not an object, or an object made of
    the credential dicts of the sites and the optional ["property_details"]
    object. *)
Inductive config_json :=
| JsonMissing (e : exn)                      (* FileNotFoundError *)
| JsonBad (e : exn)                          (* json.JSONDecodeError *)
| JsonOther (e : exn)                        (* any other error of open/read *)
| JsonNotObject (v : json_other)             (* top level not an object *)
| JsonOk (entries : list (string * Creds)) (details : option DetailsJson).

(** The file as [load_credentials] sees it.  The ["property_details"]
    entry is a key of the object too; [load_credentials] returns it
    unread, and the only caller that can ask for it is [post_listing] for
    the site ["property_details"], which is unsupported and does not read
    the credentials, so it is passed as an empty dict. *)
Definition credentials_view (c : config_json) : config_file :=
  match c with
  | JsonMissing e => ConfigMissing e
  | JsonBad e => ConfigBadJson e
  | JsonOther e => ConfigOther e
  | JsonNotObject v => ConfigNotObject v
  | JsonOk entries None => ConfigOk entries
  | JsonOk entries (Some _) => ConfigOk (("property_details", []) :: entries)
  end.

(** [load_property_details]: every error of [open] and [json.load] is
    caught by its [except Exception]. *)
Definition load_property_details (c : config_json) : D (option PropertyDetails) :=
  match c with
  | JsonMissing e | JsonBad e | JsonOther e =>
      log ERROR ("Error loading property details: " ++ exn_str e) ;; mret None
  | JsonNotObject v =>
      dtry (present <- json_contains "property_details" v ;;
            if present then dthrow (json_index_error v)
            else log ERROR "No property details found in config" ;; mret None)
           is_exception
           (fun e => log ERROR ("Error loading property details: " ++ exn_str e) ;; mret None)
  | JsonOk _ None =>
      log ERROR "No property details found in config" ;; mret None
  | JsonOk _ (Some details) =>
      mret (Some (PropertyDetails_new
        (dict_get (dj_title details) "")
        (dict_get (dj_description details) "")
        (dict_get (dj_price details) "")
        (dict_get (dj_bedrooms details) 0)
        (dict_get (dj_bathrooms details) 0)
        (dict_get (dj_area details) "0.0")
        (dict_get (dj_location details) "")
        (dict_get (dj_city details) "")
        (dict_get (dj_address details) "")
        (dict_get (dj_property_type details) "Apartment")
        (dict_get (dj_features details) (Some []))
        (dict_get (dj_contact_phone details) "")
        (dict_get (dj_contact_email details) "")
        (dict_get (dj_images details) (Some []))))
  end.

(** ** Parsing of the interactive answers *)

(** A Python [str] as the list of its code points. *)
Definition pystr := list Z.

(** The code points of a string literal of ASCII characters. *)
Definition pystr_of (s : string) : pystr :=
  map (fun a => Z.of_nat (nat_of_ascii a)) (list_ascii_of_string s).

(** [str.isspace] on one code point: \t \n \v \f \r, the separators U+001C
    to U+001F, the space, U+0085, U+00A0, U+1680, U+2000 to U+200A, U+2028,
    U+2029, U+202F, U+205F and U+3000. *)
Definition is_space (c : Z) : bool :=
  ((9 <=? c) && (c <=? 13))%Z || ((28 <=? c) && (c <=? 32))%Z || (c =? 133)%Z ||
  (c =? 160)%Z || (c =? 5760)%Z || ((8192 <=? c) && (c <=? 8202))%Z ||
  (c =? 8232)%Z || (c =? 8233)%Z || (c =? 8239)%Z || (c =? 8287)%Z || (c =? 12288)%Z.

Fixpoint lstrip (s : pystr) : pystr :=
  match s with
  | [] => []
  | a :: s' => if is_space a then lstrip s' else s
  end.

Fixpoint rstrip (s : pystr) : pystr :=
  match s with
  | [] => []
  | a :: s' =>
      let r := rstrip s' in
      if match r with [] => true | _ => false end && is_space a then [] else a :: r
  end.

(** [str.strip()] *)
Definition strip (s : pystr) : pystr := rstrip (lstrip s).

(** [s.split(sep)] for a one-character separator. *)
Fixpoint split_on (sep : Z) (s : pystr) : list pystr :=
  match s with
  | [] => [[]]
  | a :: s' =>
      let parts := split_on sep s' in
      if Z.eqb a sep then [] :: parts
      else match parts with
           | p :: ps => (a :: p) :: ps
           | [] => [[a]]
           end
  end.

(** [features = [f.strip() for f in features_input.split(",") if f.strip()]] *)
Definition parse_features (features_input : pystr) : list pystr :=
  map strip (filter (fun f => match strip f with [] => false | _ => true end)
                    (split_on 44 features_input)).

(** [sep.join(fs)] *)
Fixpoint py_join (sep : pystr) (fs : list pystr) : pystr :=
  match fs with
  | [] => []
  | [f] => f
  | f :: fs' => (f ++ sep ++ py_join sep fs')%list
  end.

(** [s.endswith(suffix)] *)
Definition ends_with (suffix s : string) : bool :=
  Nat.leb (String.length suffix) (String.length s) &&
  String.eqb (substring (String.length s - String.length suffix) (String.length suffix) s) suffix.

(** The filter [f.lower().endswith(('.png', '.jpg', '.jpeg'))] of the
    images directory listing. *)
Definition is_image_file (f : string) : bool :=
  let l := lower f in
  ends_with ".png" l || ends_with ".jpg" l || ends_with ".jpeg" l.

(** ** The command line entry point *)

(** The parsed command line: [--config], [--browser], [--headless],
    [--sites] and [--interactive]. *)
Record Args := mkArgs {
  arg_config : string;
  arg_browser : string;
  arg_headless : bool;
  arg_sites : list string;
  arg_interactive : bool }.

(** The defaults of the argument parser. *)
Definition default_args : Args :=
  mkArgs "config.json" "chrome" false ["njoftime.com"; "merrjep.al"; "indomio.al"] false.

(** The file system as [main] uses it: [os.path.isfile], what [json.load]
    reads from a file, and the error (if any) of opening a file for writing. *)
Record Host := mkHost {
  isfile : string -> bool;
  read_json : string -> config_json;
  write_error : string -> option exn }.

Section Main.

Variable env : Env.
Variable host : Host.

(** [create_sample_config]: the written text is not part of the modelled
    world; a failure of [open] or [json.dump] is logged. *)
Definition create_sample_config (config_file : string) : D unit :=
  match write_error host config_file with
  | Some e => log ERROR ("Failed to create sample config: " ++ exn_str e)
  | None => mret tt
  end.

(** [main] from the line after [args = parser.parse_args()] on (the
    [SystemExit] of argparse on [--help] or on a [--browser] outside its
    choices happens before), with the [print] calls left out.
    [get_property_details_interactively] (which reads standard input) is
    passed in; the truth test [not property_details] only fails on [None],
    since a dataclass instance is always true. *)
Definition main (args : Args) (get_property_details_interactively : D PropertyDetails)
    : D unit :=
  if negb (isfile host (arg_config args)) then
    create_sample_config (arg_config args)
  else
    property_details <-
      (if arg_interactive args then
         pd <- get_property_details_interactively ;; mret (Some pd)
       else load_property_details (read_json host (arg_config args))) ;;
    match property_details with
    | None => mret tt
    | Some pd =>
        main_run env (arg_browser args) (arg_headless args) (arg_sites args) pd
                 (credentials_view (read_json host (arg_config args)))
    end.

End Main.

(** ** Specification-level notions and test drivers *)

Definition count_calls (P : call -> bool) (l : list event) : nat :=
  length (filter (fun e => P (snd e)) l).

Definition is_click (el : locator) (c : call) : bool :=
  match c with Click l => locator_eqb l el | _ => false end.

Definition is_sleep (c : call) : bool := match c with Sleep _ => true | _ => false end.

Definition is_sleep_of (n : nat) (c : call) : bool :=
  match c with Sleep m => Nat.eqb m n | _ => false end.

Definition is_find_element (c : call) : bool :=
  match c with FindElement _ => true | _ => false end.

(** The clicks on [el] and the sleeps among new events (given newest
    first), in the order they happened. *)
Definition click_sleep_pattern (el : locator) (new : list event) : list call :=
  rev (map snd (filter (fun e => is_click el (snd e) || is_sleep (snd e)) new)).

(** A page driven by the clock: driver calls take no time, an indicator
    is found exactly when [present] says so (otherwise the lookup raises a
    [NoSuchElementException]), and [is_displayed] answers [displayed]
    without raising. *)
Definition page_driven (env : Env) (present displayed : locator -> nat -> bool) : Prop :=
  (forall t h c, latency env t h c = 0) /\
  forall t h l,
    (present l t = true -> raises env t h (FindElement l) = None) /\
    (present l t = false -> exists s,
       raises env t h (FindElement l) = Some (mkExn NoSuchElementException s)) /\
    raises env t h (IsDisplayed l) = None /\
    answer_bool env t h (IsDisplayed l) = displayed l t.

Definition committed (present displayed : locator -> nat -> bool) (t0 : nat)
    : option locator :=
  find (fun l => present l t0 && displayed l t0) captcha_indicators.

Definition wait_call (l : locator) (c : call) : Prop :=
  c = FindElement l \/ c = Sleep 2 \/ exists lv m, c = Log lv m.

Definition is_upload_wait (loc : locator) (c : call) : bool :=
  match c with WaitVisible l _ => locator_eqb l loc | _ => false end.

(** [m] adds at most [k] calls satisfying [P] to the trace. *)
Definition fp {A} (P : call -> bool) (k : nat) (m : D A) : Prop :=
  forall w, exists new, trace (snd (m w)) = (new ++ trace w)%list /\ count_calls P new <= k.

Definition rfp {A} (P : call -> bool) (k : nat) (m : R A) : Prop :=
  forall r w, exists new, trace (snd (m r w)) = (new ++ trace w)%list /\ count_calls P new <= k.

Definition is_success_wait (loc : locator) (c : call) : bool :=
  match c with WaitVisible l 15 => locator_eqb l loc | _ => false end.

(** [m] only adds calls to the trace, and every run of it whose new calls
    include one satisfying [P] ends as [Q] says. *)
Definition rhit {A} (P : call -> bool) (m : R A)
    (Q : PostResult -> res A -> PostResult -> Prop) : Prop :=
  forall r w, match m r w with
  | (x, r', w') => exists new, trace w' = (new ++ trace w)%list /\
      (0 < count_calls P new -> Q r x r')
  end.

Definition with_message (r : PostResult) (m : string) : PostResult :=
  mkResult (site r) (success r) m (listing_url r).

(** Every run of [m] from the result cell [r] ends with outcome [x] and
    cell [r'] such that [Q r x r']. *)
Definition rpost {A} (m : R A) (Q : PostResult -> res A -> PostResult -> Prop) : Prop :=
  forall r w, match m r w with (x, r', _) => Q r x r' end.

Definition adapter_outcome (r r' : PostResult) : Prop :=
  r' = with_message r "Login failed" \/
  r' = with_message r "Captcha handling failed" \/
  r' = with_message r "Could not confirm successful posting" \/
  success r' = true.

Definition Q_body (r : PostResult) (x : res unit) (r' : PostResult) : Prop :=
  site r' = site r /\ (x = Ok tt -> adapter_outcome r r').

Definition Q_adapter (r : PostResult) (x : res unit) (r' : PostResult) : Prop :=
  x = Ok tt /\ site r' = site r /\
  (adapter_outcome r r' \/ exists e, message r' = "Error: " ++ exn_str e).

Definition is_captcha_find (c : call) : bool :=
  match c with FindElement l => existsb (locator_eqb l) captcha_indicators | _ => false end.

Definition nsee : exn := mkExn NoSuchElementException "no such element".

(** A driver on which no challenge is shown and every other call succeeds,
    except those [fails] makes raise. *)
Definition scripted (fails : call -> option exn) : Env := {|
  raises := fun _ _ c => if is_captcha_find c then Some nsee else fails c;
  answer_bool := fun _ _ _ => true;
  answer_str := fun _ _ _ => "https://indomio.al/property/9";
  answer_opt_str := fun _ _ _ => Some "https://njoftime.com/listing/1";
  answer_count := fun _ _ _ => 1;
  latency := fun _ _ _ => 0;
  abspath := fun p => "/home/user/" ++ p |}.

Definition happy : Env := scripted (fun _ => None).

Definition pd0 : PropertyDetails :=
  mkPD "Apartament 2+1" "Ne qender" "85000" 2 1 "85.5" "Tirana" "Tirana" ""
       "Apartment" [] "" "" ["a.jpg"; "b.jpg"].

Definition creds0 : Creds := [("username", "agent"); ("password", "secret")].

Definition w0 : World := mkWorld 0 [] false.


Definition links_fail : Env :=
  scripted (fun c => match c with
                     | FindElements _ => Some (mkExn WebDriverException "session lost")
                     | _ => None
                     end).

Definition login_page_down : Env :=
  scripted (fun c => match c with
                     | Get _ => Some (mkExn WebDriverException "net::ERR_NAME_NOT_RESOLVED")
                     | _ => None
                     end).

Definition maximize_fails : Env :=
  scripted (fun c => match c with
                     | MaximizeWindow => Some (mkExn WebDriverException "cannot maximize window")
                     | _ => None
                     end).

Definition click_other : Env :=
  scripted (fun c => match c with
                     | Click _ => Some (mkExn OtherException "connection reset")
                     | _ => None
                     end).

Definition no_confirmation : Env :=
  scripted (fun c => match c with
                     | WaitVisible _ 15 => Some (mkExn TimeoutException "no alert-success")
                     | _ => None
                     end).

(** A page where the [id=captcha] challenge stays displayed until time 100. *)
Definition slow_captcha : Env := {|
  raises := fun t _ c =>
    match c with
    | FindElement l =>
        if locator_eqb l (ID, "captcha") && Nat.ltb t 100 then None else Some nsee
    | _ => None
    end;
  answer_bool := fun _ _ _ => true;
  answer_str := fun _ _ _ => "";
  answer_opt_str := fun _ _ _ => None;
  answer_count := fun _ _ _ => 0;
  latency := fun _ _ _ => 0;
  abspath := fun p => p |}.

Definition browser_calls (l : list event) : list event :=
  filter (fun e => browser_call (snd e)) l.





(** A host whose config file holds credentials but no property details. *)
Definition no_details_host : Host := {|
  isfile := fun _ => true;
  read_json := fun _ => JsonOk [("njoftime.com", creds0)] None;
  write_error := fun _ => None |}.

(** ** Proofs *)



(** C1: for a site identifier that is none of njoftime.com, merrjep.al and
    indomio.al, [post_listing] returns [{site; success = False; message =
    "Unsupported site: <id>"; listing_url = None}] and its only effect is one
    log line: no driver call is made. *)
Theorem post_listing_unsupported (env : Env) (s : string) pd creds w :
  s <> "njoftime.com" -> s <> "merrjep.al" -> s <> "indomio.al" ->
  post_listing env s pd creds w =
    (Ok (mkResult s false ("Unsupported site: " ++ s) None),
     mkWorld (clock w) ((clock w, Log ERROR ("Unsupported site: " ++ s)) :: trace w)
             (driver_set w)).
Proof.
  intros H1 H2 H3.
  apply String.eqb_neq in H1, H2, H3.
  unfold post_listing. rewrite H1, H2, H3. reflexivity.
Qed.

Ltac mon := cbv beta iota zeta delta [mbind mret D_monad R_monad dbind dret dtry dthrow
  rbind rret rtry lift set_success set_message set_listing_url get_message perform ask
  time_time sleep log].

Lemma locator_eqb_refl l : locator_eqb l l = true.
Proof. destruct l as [[] s]; unfold locator_eqb; simpl; now rewrite String.eqb_refl. Qed.

Lemma safe_click_first env el w :
  raises env (clock w) (trace w) (Click el) = None ->
  safe_click env el w = (Ok (Some true), issue env (Click el) w).
Proof.
  intro H. cbv [safe_click safe_click_loop seq]. mon. rewrite H. reflexivity.
Qed.

Lemma app_cons_ex {A} (a : A) l new t : l = (new ++ t)%list -> a :: l = ((a :: new) ++ t)%list.
Proof. intros ->. reflexivity. Qed.

Lemma app_nil_ex {A} (t : list A) : t = ([] ++ t)%list.
Proof. reflexivity. Qed.

Ltac prefix := cbn; repeat eapply app_cons_ex; apply app_nil_ex.

Lemma safe_click_loop_step env el a rest m w :
  safe_click_loop env (a :: rest) m el w =
  match raises env (clock w) (trace w) (Click el) with
  | None => (Ok (Some true), issue env (Click el) w)
  | Some e =>
      let w1 := issue env (Click el) w in
      if is_click_error (exn_type e) then
        if Nat.ltb a (m - 1) then
          safe_click_loop env rest m el
            (mkWorld (clock w1 + 1)
               ((clock w1, Sleep 1)
                :: (clock w1, Log WARNING ("Click failed, retrying... (" ++ exn_str e ++ ")"))
                :: trace w1) (driver_set w1))
        else (Ok (Some false),
              mkWorld (clock w1)
                ((clock w1, Log ERROR ("Failed to click element: " ++ exn_str e)) :: trace w1)
                (driver_set w1))
      else (Raise e, w1)
  end.
Proof.
  cbn [safe_click_loop]. mon.
  destruct (raises env (clock w) (trace w) (Click el)) as [e|]; [|reflexivity].
  destruct (is_click_error (exn_type e)); [|reflexivity].
  destruct (Nat.ltb a (m - 1)); reflexivity.
Qed.

Ltac click_steps :=
  repeat (rewrite safe_click_loop_step; cbv zeta;
    let E := fresh "E" in let C := fresh "C" in let e := fresh "e" in
    match goal with
    | |- context [raises ?env ?t ?h (Click ?el)] =>
        destruct (raises env t h (Click el)) as [e|] eqn:E;
        [destruct (is_click_error (exn_type e)) eqn:C;
         cbv beta iota delta [Nat.ltb Nat.leb Nat.sub] |]
    end);
  cbn [safe_click_loop].

Lemma safe_click_pattern env el w :
  match safe_click env el w with
  | (x, w') => exists new, trace w' = (new ++ trace w)%list /\
      In (click_sleep_pattern el new)
         [[Click el]; [Click el; Sleep 1; Click el];
          [Click el; Sleep 1; Click el; Sleep 1; Click el]]
  end.
Proof.
  cbv [safe_click seq]. click_steps.
  all: mon; eexists; split; [prefix|].
  all: cbv [click_sleep_pattern]; cbn; rewrite ?locator_eqb_refl; cbn; auto 6.
Qed.

Lemma app_cons_inv {A} (pre post l : list A) a b :
  (pre ++ a :: post)%list = b :: l ->
  (pre = [] /\ a = b /\ post = l) \/ (exists pre', pre = b :: pre' /\ (pre' ++ a :: post)%list = l).
Proof.
  destruct pre as [|c pre]; cbn; intros H; injection H as H1 H2; subst; [left|right]; eauto.
Qed.

Ltac click_at H Hr :=
  repeat (apply app_cons_inv in H as [[-> [Ha ->]] | [? [-> H]]];
          [first [discriminate Ha
                 | injection Ha as ->; cbn in Hr; solve [congruence | split; [reflexivity|congruence]]] |]).

Lemma safe_click_propagates env el w :
  match safe_click env el w with
  | (x, w') => exists new, trace w' = (new ++ trace w)%list /\
     (forall pre t post e, new = (pre ++ (t, Click el) :: post)%list ->
        raises env t (post ++ trace w) (Click el) = Some e ->
        is_click_error (exn_type e) = false -> pre = [] /\ x = Raise e) /\
     (forall e, x = Raise e -> exists t post, new = (t, Click el) :: post /\
        raises env t (post ++ trace w) (Click el) = Some e /\ is_click_error (exn_type e) = false)
  end.
Proof.
  cbv [safe_click seq]. click_steps.
  all: mon; eexists; split; [prefix|].
  all: split; [intros pre t post e' H Hr Hc; symmetry in H; cbn [app] in H
              | intros e' He; first [discriminate He | injection He as <-;
                do 2 eexists; split; [reflexivity|]; cbn; split; eassumption]].
  all: cbn in *; click_at H Hr; exfalso; eapply app_cons_not_nil; symmetry; exact H.
Qed.

Lemma safe_click_counts env el w :
  match safe_click env el w with
  | (x, w') =>
    exists new, trace w' = (new ++ trace w)%list /\
      count_calls (is_click el) new <= 3 /\
      S (count_calls is_sleep new) = count_calls (is_click el) new /\
      count_calls is_sleep new = count_calls (is_sleep_of 1) new /\
      x <> Ok None /\
      (raises env (clock w) (trace w) (Click el) = None ->
         x = Ok (Some true) /\ new = [(clock w, Click el)]) /\
      ((forall t h e, raises env t h (Click el) = Some e ->
          is_click_error (exn_type e) = true) ->
         exists b, x = Ok (Some b)) /\
      ((forall t h, exists e, raises env t h (Click el) = Some e /\
          is_click_error (exn_type e) = true) ->
         x = Ok (Some false) /\ count_calls (is_click el) new = 3)
  end.
Proof.
  cbv [safe_click seq]. click_steps.
  all: mon; eexists; split; [prefix|].
  all: cbn; rewrite ?locator_eqb_refl; cbn.
  all: repeat (match goal with |- _ /\ _ => split | |- _ -> _ => intro end);
    try lia; try congruence; eauto.
  all: match goal with
  | Hx : forall t h e, raises _ t h _ = Some e -> _,
    Ec : raises _ _ _ _ = Some ?e, Cc : is_click_error (exn_type ?e) = false |- _ =>
      rewrite (Hx _ _ _ Ec) in Cc; discriminate
  | Hx : forall t h, exists e, _, Ec : raises _ ?t ?h _ = None |- _ =>
      destruct (Hx t h) as [? [Hy _]]; rewrite Hy in Ec; discriminate
  | Hx : forall t h, exists e, _,
    Ec : raises _ ?t ?h _ = Some ?e, Cc : is_click_error (exn_type ?e) = false |- _ =>
      destruct (Hx t h) as [? [Hy Hz]]; rewrite Hy in Ec; injection Ec; intros <-;
      congruence
  end.
Qed.

(** C3 (amended): [safe_click] only adds calls to the history; it clicks at
    most 3 times; taken in the order they happen, its clicks and sleeps
    alternate, each sleep being [time.sleep(1)], with no sleep before the
    first click or after the last; it never returns Python's [None]; a
    click that succeeds at once returns [True] after that single call; if
    every click that raises raises an [ElementNotInteractableException] or
    a [WebDriverException] it returns a boolean; if every click raises such
    an error it returns [False] after exactly 3 clicks.  A click that raises
    an exception of any other class makes [safe_click] raise that exception
    at once, with no call after it, and this is the only way [safe_click]
    raises. *)
Theorem safe_click_spec env el w :
  match safe_click env el w with
  | (x, w') =>
    exists new, trace w' = (new ++ trace w)%list /\
      count_calls (is_click el) new <= 3 /\
      S (count_calls is_sleep new) = count_calls (is_click el) new /\
      count_calls is_sleep new = count_calls (is_sleep_of 1) new /\
      In (click_sleep_pattern el new)
         [[Click el]; [Click el; Sleep 1; Click el];
          [Click el; Sleep 1; Click el; Sleep 1; Click el]] /\
      x <> Ok None /\
      (raises env (clock w) (trace w) (Click el) = None ->
         x = Ok (Some true) /\ new = [(clock w, Click el)]) /\
      ((forall t h e, raises env t h (Click el) = Some e ->
          is_click_error (exn_type e) = true) ->
         exists b, x = Ok (Some b)) /\
      ((forall t h, exists e, raises env t h (Click el) = Some e /\
          is_click_error (exn_type e) = true) ->
         x = Ok (Some false) /\ count_calls (is_click el) new = 3) /\
      (forall pre t post e, new = (pre ++ (t, Click el) :: post)%list ->
         raises env t (post ++ trace w) (Click el) = Some e ->
         is_click_error (exn_type e) = false -> pre = [] /\ x = Raise e) /\
      (forall e, x = Raise e -> exists t post, new = (t, Click el) :: post /\
         raises env t (post ++ trace w) (Click el) = Some e /\
         is_click_error (exn_type e) = false)
  end.
Proof.
  pose proof (safe_click_counts env el w) as H1.
  pose proof (safe_click_pattern env el w) as H2.
  pose proof (safe_click_propagates env el w) as H3.
  destruct (safe_click env el w) as [x w'].
  destruct H1 as [new [Ht H1]], H2 as [new2 [Ht2 H2]], H3 as [new3 [Ht3 H3]].
  assert (new2 = new) by (apply (app_inv_tail (trace w)); congruence).
  assert (new3 = new) by (apply (app_inv_tail (trace w)); congruence).
  subst new2 new3. exists new. split; [exact Ht|]. tauto.
Qed.

Lemma captcha_wait_false_late env l start t : forall fuel w,
  start <= clock w -> t <= fuel + (clock w - start) ->
  fst (captcha_wait env fuel l start t w) = Ok false ->
  start + t <= clock (snd (captcha_wait env fuel l start t w)).
Proof.
  induction fuel as [|f IH]; intros w Hs Hf; cbn [captcha_wait]; mon.
  - destruct (Nat.ltb_spec (clock w - start) t); [lia|]. cbn. lia.
  - destruct (Nat.ltb_spec (clock w - start) t); [|cbn; lia].
    unfold captcha_poll; mon.
    destruct (raises env (clock w) (trace w) (FindElement l)) as [e|] eqn:E.
    + destruct (is_no_such_element (exn_type e)); cbn; discriminate.
    + apply IH; cbn [issue clock]; lia.
Qed.

Lemma captcha_wait_clock env l start t : forall fuel w,
  clock w <= clock (snd (captcha_wait env fuel l start t w)).
Proof.
  induction fuel as [|f IH]; intros w; cbn [captcha_wait]; mon;
    (destruct (Nat.ltb (clock w - start) t); [|cbn; lia]);
    unfold captcha_poll; mon;
    (destruct (raises env (clock w) (trace w) (FindElement l)) as [e|] eqn:E;
     [destruct (is_no_such_element (exn_type e)); cbn; lia|]).
  - cbn. lia.
  - etransitivity; [|apply IH]. cbn. lia.
Qed.

Lemma captcha_scan_false_late env t : forall inds w,
  fst (captcha_scan env inds t w) = Ok false ->
  clock w + t <= clock (snd (captcha_scan env inds t w)).
Proof.
  induction inds as [|l rest IH]; intros w; cbn [captcha_scan]; mon; [discriminate|].
  destruct (raises env (clock w) (trace w) (FindElement l)) as [e|] eqn:E.
  - destruct (is_no_such_element (exn_type e)); [|discriminate].
    intros H. etransitivity; [|apply IH, H]. cbn. lia.
  - set (w1 := issue env (FindElement l) w).
    destruct (raises env (clock w1) (trace w1) (IsDisplayed l)) as [e|] eqn:E1.
    + destruct (is_no_such_element (exn_type e)); [|discriminate].
      intros H. etransitivity; [|apply IH, H]. cbn. lia.
    + destruct (answer_bool env (clock w1) (trace w1) (IsDisplayed l)).
      * set (w2 := issue env (IsDisplayed l) w1).
        set (w3 := mkWorld (clock w2) _ (driver_set w2)).
        pose proof (captcha_wait_clock env l (clock w3) t t w3) as Hc.
        pose proof (captcha_wait_false_late env l (clock w3) t t w3) as Hf.
        destruct (captcha_wait env t l (clock w3) t w3) as [[b|e] w4] eqn:W;
          cbn in Hc, Hf |- *.
        -- intros H. injection H as ->. specialize (Hf (le_n _) ltac:(lia) eq_refl).
           cbn in Hf. lia.
        -- destruct (is_no_such_element (exn_type e)); [|discriminate].
           intros H. etransitivity; [|apply IH, H]. cbn in *. lia.
      * intros H. etransitivity; [|apply IH, H]. cbn. lia.
Qed.

Lemma count_calls_app P l1 l2 :
  count_calls P (l1 ++ l2) = count_calls P l1 + count_calls P l2.
Proof. unfold count_calls. now rewrite filter_app, length_app. Qed.

Lemma captcha_wait_solved env pr di l start t (Hp : page_driven env pr di) :
  forall d k f w, clock w = start + 2 * k -> t <= f + 2 * k ->
  (forall i, k <= i < k + d -> pr l (start + 2 * i) = true) ->
  2 * (k + d) < t -> pr l (start + 2 * (k + d)) = false ->
  match captcha_wait env f l start t w with
  | (x, w') => x = Ok true /\ clock w' = start + 2 * (k + d) /\
      exists new, trace w' = (new ++ trace w)%list /\
        count_calls is_sleep new = d /\ count_calls (is_sleep_of 2) new = d
  end.
Proof.
  destruct Hp as [Hlat Hp].
  induction d as [|d IH]; intros k f w Hc Hf Hpr Ht Habs; destruct f as [|f];
    cbn [captcha_wait]; mon;
    (destruct (Nat.ltb_spec (clock w - start) t); [|lia]);
    unfold captcha_poll; mon.
  1,2: destruct (Hp (clock w) (trace w) l) as [_ [Hn _]];
    rewrite Nat.add_0_r, <- Hc in Habs; destruct (Hn Habs) as [s Hs]; rewrite Hs; cbn;
    split; [reflexivity|]; split; [rewrite Hlat; lia|];
    eexists; split; [prefix|]; split; reflexivity.
  - exfalso. lia.
  - destruct (Hp (clock w) (trace w) l) as [Hy _].
    rewrite Hy by (rewrite Hc; apply Hpr; lia).
    set (w2 := mkWorld _ _ _).
    specialize (IH (S k) f w2).
    destruct (captcha_wait env f l start t w2) as [x w'].
    destruct IH as [IH1 [IH2 [new [IH3 [IH4 IH5]]]]].
    + cbn. rewrite Hlat. lia.
    + lia.
    + intros i Hi. apply Hpr. lia.
    + lia.
    + replace (S k + d) with (k + S d) by lia. exact Habs.
    + split; [exact IH1|]. split; [rewrite IH2; lia|].
      exists (new ++ [(clock w + latency env (clock w) (trace w) (FindElement l), Sleep 2);
                     (clock w, FindElement l)])%list.
      split; [rewrite IH3; cbn; now rewrite <- app_assoc|].
      rewrite !count_calls_app. cbn. lia.
Qed.

Lemma captcha_wait_never env pr di l start t (Hp : page_driven env pr di) :
  (forall i, 2 * i < t -> pr l (start + 2 * i) = true) ->
  forall f k w, clock w = start + 2 * k -> t <= f + 2 * k ->
  fst (captcha_wait env f l start t w) = Ok false.
Proof.
  destruct Hp as [Hlat Hp]. intros Hpr.
  induction f as [|f IH]; intros k w Hc Hf; cbn [captcha_wait]; mon;
    (destruct (Nat.ltb_spec (clock w - start) t); [|reflexivity]);
    unfold captcha_poll; mon;
    destruct (Hp (clock w) (trace w) l) as [Hy _];
    rewrite Hy by (rewrite Hc; apply Hpr; lia).
  - exfalso. lia.
  - apply (IH (S k)); cbn; [rewrite Hlat|]; lia.
Qed.

Lemma captcha_wait_raise env l start t : forall fuel w e,
  fst (captcha_wait env fuel l start t w) = Raise e ->
  is_no_such_element (exn_type e) = false.
Proof.
  induction fuel as [|f IH]; intros w e; cbn [captcha_wait]; mon;
    (destruct (Nat.ltb (clock w - start) t); [|discriminate]);
    unfold captcha_poll; mon;
    (destruct (raises env (clock w) (trace w) (FindElement l)) as [e'|] eqn:E;
     [destruct (is_no_such_element (exn_type e')) eqn:N; cbn; [discriminate|];
      intros H; injection H as <-; exact N|]).
  - discriminate.
  - apply IH.
Qed.

Lemma captcha_scan_page env pr di t (Hp : page_driven env pr di) : forall inds w,
  match find (fun l => pr l (clock w) && di l (clock w)) inds with
  | None =>
      match captcha_scan env inds t w with
      | (x, w') => x = Ok true /\ clock w' = clock w /\
          exists new, trace w' = (new ++ trace w)%list /\ count_calls is_sleep new = 0 /\
            count_calls is_find_element new = length inds
      end
  | Some l =>
      exists w', clock w' = clock w /\
        (exists new, trace w' = (new ++ trace w)%list /\ count_calls is_sleep new = 0) /\
        captcha_scan env inds t w = captcha_wait env t l (clock w) t w'
  end.
Proof.
  pose proof Hp as [Hlat Hd].
  induction inds as [|l rest IH]; intros w; cbn [find captcha_scan]; mon.
  - split; [reflexivity|]. split; [reflexivity|]. exists []. repeat split.
  - destruct (Hd (clock w) (trace w) l) as [Hy [Hn _]].
    destruct (pr l (clock w)) eqn:Hpr; cbn [andb].
    + rewrite (Hy eq_refl).
      set (w1 := issue env (FindElement l) w).
      assert (C1 : clock w1 = clock w) by (cbn; rewrite Hlat; lia).
      destruct (Hd (clock w1) (trace w1) l) as [_ [_ [Hr Ha]]].
      rewrite Hr, Ha, C1.
      destruct (di l (clock w)).
      * match goal with |- context [captcha_wait env t l _ t ?w3] => exists w3 end.
        split; [|split].
        -- cbn. rewrite ?Hlat. lia.
        -- eexists. split; [prefix|reflexivity].
        -- match goal with |- context [captcha_wait env t l ?s t ?w3] =>
             pose proof (captcha_wait_raise env l s t t w3) as HR;
             replace s with (clock w) in * by (cbn; rewrite ?Hlat; lia);
             destruct (captcha_wait env t l (clock w) t w3) as [[b|e] w4] end;
           cbn; [reflexivity|].
           now rewrite (HR e eq_refl).
      * set (w2 := issue env (IsDisplayed l) w1).
        specialize (IH w2).
        replace (clock w2) with (clock w) in IH by (cbn; rewrite ?Hlat; lia).
        destruct (find _ rest) as [l'|].
        -- destruct IH as [w' [Hc [[new [Ht Hs]] He]]].
           exists w'. split; [lia|]. split; [|exact He].
           exists (new ++ [(clock w1, IsDisplayed l); (clock w, FindElement l)])%list.
           split; [rewrite Ht; cbn; now rewrite <- app_assoc|].
           rewrite count_calls_app, Hs. reflexivity.
        -- destruct (captcha_scan env rest t w2) as [x w'].
           destruct IH as [Hx [Hc [new [Ht [Hs Hf]]]]].
           split; [exact Hx|]. split; [lia|].
           exists (new ++ [(clock w1, IsDisplayed l); (clock w, FindElement l)])%list.
           split; [rewrite Ht; cbn; now rewrite <- app_assoc|].
           rewrite !count_calls_app, Hs, Hf. cbn. split; [reflexivity|lia].
    + destruct (Hn eq_refl) as [s Hs]. rewrite Hs. cbn [exn_type is_no_such_element].
      set (w1 := issue env (FindElement l) w).
      specialize (IH w1).
      replace (clock w1) with (clock w) in IH by (cbn; rewrite ?Hlat; lia).
      destruct (find _ rest) as [l'|].
      * destruct IH as [w' [Hc [[new [Ht Hs']] He]]].
        exists w'. split; [lia|]. split; [|exact He].
        exists (new ++ [(clock w, FindElement l)])%list.
        split; [rewrite Ht; cbn; now rewrite <- app_assoc|].
        rewrite count_calls_app, Hs'. reflexivity.
      * destruct (captcha_scan env rest t w1) as [x w'].
        destruct IH as [Hx [Hc [new [Ht [Hs' Hf]]]]].
        split; [exact Hx|]. split; [lia|].
        exists (new ++ [(clock w, FindElement l)])%list.
        split; [rewrite Ht; cbn; now rewrite <- app_assoc|].
        rewrite !count_calls_app, Hs', Hf. cbn. split; [reflexivity|lia].
Qed.

(** C4 (amended): [handle_captcha t] returns [False] only once at least [t]
    time units have passed since its call.  On a page driven by the clock
    ([page_driven]: whether an indicator is present and displayed depends
    only on the clock, and driver calls take no time, so that the clock
    moves only with the sleeps): when no indicator is present and displayed
    it returns [True] at once, after one [find_element] per indicator (no
    poll) and without sleeping; when the first present and displayed
    indicator disappears at the [j]-th poll with [2 j < t] it returns [True]
    after [j] sleeps of 2 time units; when it stays present at every poll
    before the deadline it returns [False]. *)
Theorem handle_captcha_timing env present displayed t w :
  (fst (handle_captcha env t w) = Ok false ->
     clock w + t <= clock (snd (handle_captcha env t w))) /\
  (page_driven env present displayed ->
   (committed present displayed (clock w) = None ->
      match handle_captcha env t w with
      | (x, w') => x = Ok true /\ clock w' = clock w /\
          exists new, trace w' = (new ++ trace w)%list /\ count_calls is_sleep new = 0 /\
            count_calls is_find_element new = 3
      end) /\
   (forall l j, committed present displayed (clock w) = Some l -> 2 * j < t ->
      (forall i, i < j -> present l (clock w + 2 * i) = true) ->
      present l (clock w + 2 * j) = false ->
      match handle_captcha env t w with
      | (x, w') => x = Ok true /\ clock w' = clock w + 2 * j /\
          exists new, trace w' = (new ++ trace w)%list /\
            count_calls is_sleep new = j /\ count_calls (is_sleep_of 2) new = j
      end) /\
   (forall l, committed present displayed (clock w) = Some l ->
      (forall i, 2 * i < t -> present l (clock w + 2 * i) = true) ->
      fst (handle_captcha env t w) = Ok false)).
Proof.
  split; [apply captcha_scan_false_late|].
  intros Hp.
  pose proof (captcha_scan_page env present displayed t Hp captcha_indicators w) as HS.
  unfold committed, handle_captcha. split; [|split].
  - intros Hn. rewrite Hn in HS. exact HS.
  - intros l j Hc Hj Hpr Hab. rewrite Hc in HS.
    destruct HS as [w' [Hw' [[new [Ht Hs]] He]]]. rewrite He.
    pose proof (captcha_wait_solved env present displayed l (clock w) t Hp j 0 t w')
      as HW.
    destruct (captcha_wait env t l (clock w) t w') as [x w''].
    destruct HW as [H1 [H2 [new' [H3 [H4 H5]]]]].
    + lia.
    + lia.
    + intros i Hi. apply Hpr. lia.
    + lia.
    + exact Hab.
    + split; [exact H1|]. split; [lia|].
      exists (new' ++ new)%list. split; [rewrite H3, Ht; apply app_assoc|].
      rewrite !count_calls_app, H4, H5, Hs.
      split; [lia|].
      assert (count_calls (is_sleep_of 2) new <= count_calls is_sleep new).
      { clear -new. unfold count_calls. induction new as [|[? []] ?]; cbn; try lia.
        destruct (Nat.eqb secs 2); cbn; lia. }
      lia.
  - intros l Hc Hpr. rewrite Hc in HS.
    destruct HS as [w' [Hw' [_ He]]]. rewrite He.
    apply (captcha_wait_never env present displayed l (clock w) t Hp Hpr t 0 w'); lia.
Qed.

Ltac wait_calls_ok :=
  repeat (apply Forall_cons;
    [unfold wait_call; cbn; first [left; reflexivity | right; left; reflexivity | right; right; eauto] | ]);
  apply Forall_nil.

Lemma captcha_wait_calls env l start t : forall fuel w,
  match captcha_wait env fuel l start t w with
  | (_, w') => exists new, trace w' = (new ++ trace w)%list /\
      Forall (fun e => wait_call l (snd e)) new
  end.
Proof.
  induction fuel as [|f IH]; intros w; cbn [captcha_wait]; mon;
    (destruct (Nat.ltb (clock w - start) t);
     [|eexists; split; [prefix|wait_calls_ok]]);
    unfold captcha_poll; mon;
    (destruct (raises env (clock w) (trace w) (FindElement l)) as [e|] eqn:E;
     [destruct (is_no_such_element (exn_type e)); cbn;
      eexists; (split; [prefix|wait_calls_ok])|]).
  1: cbn; eexists; (split; [prefix|wait_calls_ok]).
  match goal with |- context [captcha_wait env f l start t ?w2] =>
    specialize (IH w2); destruct (captcha_wait env f l start t w2) as [x w'] end.
  destruct IH as [new [Ht Hf]].
  exists (new ++ [(clock w + latency env (clock w) (trace w) (FindElement l), Sleep 2);
                 (clock w, FindElement l)])%list.
  split; [rewrite Ht; cbn; now rewrite <- app_assoc|].
  apply Forall_app. split; [exact Hf|]. wait_calls_ok.
Qed.

(** C10: [handle_captcha] scans the three indicators in list order; an
    absent indicator and a present but hidden one are skipped at once (the
    scan goes on with the rest of the list, without waiting); once an
    indicator is displayed the outcome no longer depends on the indicators
    after it; the wait loop only looks for that locator, sleeps and logs; and
    it returns [True] as soon as that locator is absent, whatever the other
    indicators show. *)
Theorem handle_captcha_commits env t l rest w :
  handle_captcha env t w = captcha_scan env captcha_indicators t w /\
  ((exists s, raises env (clock w) (trace w) (FindElement l)
                = Some (mkExn NoSuchElementException s)) ->
     captcha_scan env (l :: rest) t w
       = captcha_scan env rest t (issue env (FindElement l) w)) /\
  (raises env (clock w) (trace w) (FindElement l) = None ->
   raises env (clock (issue env (FindElement l) w)) (trace (issue env (FindElement l) w))
     (IsDisplayed l) = None ->
   answer_bool env (clock (issue env (FindElement l) w)) (trace (issue env (FindElement l) w))
     (IsDisplayed l) = false ->
     captcha_scan env (l :: rest) t w
       = captcha_scan env rest t (issue env (IsDisplayed l) (issue env (FindElement l) w))) /\
  (raises env (clock w) (trace w) (FindElement l) = None ->
   raises env (clock (issue env (FindElement l) w)) (trace (issue env (FindElement l) w))
     (IsDisplayed l) = None ->
   answer_bool env (clock (issue env (FindElement l) w)) (trace (issue env (FindElement l) w))
     (IsDisplayed l) = true ->
     forall rest', captcha_scan env (l :: rest) t w = captcha_scan env (l :: rest') t w) /\
  (forall fuel start w',
     match captcha_wait env fuel l start t w' with
     | (_, w'') => exists new, trace w'' = (new ++ trace w')%list /\
         Forall (fun e => wait_call l (snd e)) new
     end) /\
  (forall fuel start w' s, clock w' - start < t ->
     raises env (clock w') (trace w') (FindElement l) = Some (mkExn NoSuchElementException s) ->
     captcha_wait env fuel l start t w'
       = (Ok true, snd (log INFO "CAPTCHA appears to be solved" (issue env (FindElement l) w')))).
Proof.
  split; [reflexivity|]. split; [|split; [|split; [|split]]].
  - intros [s Hs]. cbn [captcha_scan]. mon. rewrite Hs. reflexivity.
  - intros H1 H2 H3. cbn [captcha_scan]. mon. rewrite H1.
    cbn [issue] in H2, H3 |- *. rewrite H2, H3. reflexivity.
  - intros H1 H2 H3 rest'. cbn [captcha_scan]. mon. rewrite H1.
    cbn [issue] in H2, H3 |- *. rewrite H2, H3.
    match goal with |- context [captcha_wait env t l ?s t ?w3] =>
      pose proof (captcha_wait_raise env l s t t w3) as HR;
      destruct (captcha_wait env t l s t w3) as [[b|e] w4] end;
    [reflexivity|]. cbn. now rewrite (HR e eq_refl).
  - intros. apply captcha_wait_calls.
  - intros fuel start w' s Ht Hs. destruct fuel; cbn [captcha_wait]; mon;
      (destruct (Nat.ltb_spec (clock w' - start) t); [|lia]);
      unfold captcha_poll; mon; rewrite Hs; reflexivity.
Qed.



Section Footprint.

Variable P : call -> bool.

Lemma fp_ret {A} (a : A) : fp P 0 (dret a).
Proof. intros w. exists []. split; [reflexivity|cbn; lia]. Qed.

Lemma fp_throw {A} e : fp P 0 (@dthrow A e).
Proof. intros w. exists []. split; [reflexivity|cbn; lia]. Qed.

Lemma fp_time : fp P 0 time_time.
Proof. intros w. exists []. split; [reflexivity|cbn; lia]. Qed.

Lemma fp_log lv m : P (Log lv m) = false -> fp P 0 (log lv m).
Proof. intros H w. exists [(clock w, Log lv m)]. split; [reflexivity|]. cbn. now rewrite H. Qed.

Lemma fp_sleep n : P (Sleep n) = false -> fp P 0 (sleep n).
Proof. intros H w. exists [(clock w, Sleep n)]. split; [reflexivity|]. cbn. now rewrite H. Qed.

Lemma fp_ask_k env {A} (ans : Env -> nat -> list event -> call -> A) c :
  fp P (if P c then 1 else 0) (ask env ans c).
Proof.
  intros w. exists [(clock w, c)].
  unfold ask; destruct (raises env (clock w) (trace w) c); (split; [reflexivity|]);
    cbn; destruct (P c); cbn; lia.
Qed.

Lemma fp_ask env {A} (ans : Env -> nat -> list event -> call -> A) c :
  P c = false -> fp P 0 (ask env ans c).
Proof. intros H. pose proof (fp_ask_k env ans c) as K. now rewrite H in K. Qed.

Lemma fp_le {A} k n (m : D A) : fp P k m -> k <= n -> fp P n m.
Proof. intros H Hk w. destruct (H w) as [new [H1 H2]]. exists new. split; [exact H1|lia]. Qed.

Lemma fp_bind {A B} k j n (m : D A) (f : A -> D B) :
  fp P k m -> (forall a, fp P j (f a)) -> k + j <= n -> fp P n (dbind m f).
Proof.
  intros Hm Hf Hn w. unfold dbind. destruct (Hm w) as [new [H1 H2]].
  destruct (m w) as [[a|e] w']; cbn in H1 |- *.
  - destruct (Hf a w') as [new' [H3 H4]]. exists (new' ++ new)%list.
    split; [rewrite H3, H1; apply app_assoc|]. rewrite count_calls_app. lia.
  - exists new. split; [exact H1|lia].
Qed.

Lemma fp_try {A} k j n (m : D A) c (h : exn -> D A) :
  fp P k m -> (forall e, fp P j (h e)) -> k + j <= n -> fp P n (dtry m c h).
Proof.
  intros Hm Hh Hn w. unfold dtry. destruct (Hm w) as [new [H1 H2]].
  destruct (m w) as [[a|e] w']; cbn in H1 |- *.
  - exists new. split; [exact H1|lia].
  - destruct (c (exn_type e)); [|exists new; split; [exact H1|lia]].
    destruct (Hh e w') as [new' [H3 H4]]. exists (new' ++ new)%list.
    split; [rewrite H3, H1; apply app_assoc|]. rewrite count_calls_app. lia.
Qed.

Lemma fp_bind0 {A B} (m : D A) (f : A -> D B) :
  fp P 0 m -> (forall a, fp P 0 (f a)) -> fp P 0 (dbind m f).
Proof. intros; eapply fp_bind; eauto. Qed.

Lemma fp_try0 {A} (m : D A) c (h : exn -> D A) :
  fp P 0 m -> (forall e, fp P 0 (h e)) -> fp P 0 (dtry m c h).
Proof. intros; eapply fp_try; eauto. Qed.

Lemma rfp_lift {A} k (m : D A) : fp P k m -> rfp P k (lift m).
Proof.
  intros H r w. destruct (H w) as [new [H1 H2]]. exists new. unfold lift.
  destruct (m w) as [x w']. split; assumption.
Qed.

Lemma rfp_ret {A} (a : A) : rfp P 0 (rret a).
Proof. intros r w. exists []. split; [reflexivity|cbn; lia]. Qed.

Lemma rfp_set_success b : rfp P 0 (set_success b).
Proof. intros r w. exists []. split; [reflexivity|cbn; lia]. Qed.

Lemma rfp_set_message m : rfp P 0 (set_message m).
Proof. intros r w. exists []. split; [reflexivity|cbn; lia]. Qed.

Lemma rfp_set_listing_url u : rfp P 0 (set_listing_url u).
Proof. intros r w. exists []. split; [reflexivity|cbn; lia]. Qed.

Lemma rfp_get_message : rfp P 0 get_message.
Proof. intros r w. exists []. split; [reflexivity|cbn; lia]. Qed.

Lemma rfp_bind {A B} k j n (m : R A) (f : A -> R B) :
  rfp P k m -> (forall a, rfp P j (f a)) -> k + j <= n -> rfp P n (rbind m f).
Proof.
  intros Hm Hf Hn r w. unfold rbind. destruct (Hm r w) as [new [H1 H2]].
  destruct (m r w) as [[[a|e] r'] w']; cbn in H1 |- *.
  - destruct (Hf a r' w') as [new' [H3 H4]]. exists (new' ++ new)%list.
    split; [rewrite H3, H1; apply app_assoc|]. rewrite count_calls_app. lia.
  - exists new. split; [exact H1|lia].
Qed.

Lemma rfp_try {A} k j n (m : R A) c (h : exn -> R A) :
  rfp P k m -> (forall e, rfp P j (h e)) -> k + j <= n -> rfp P n (rtry m c h).
Proof.
  intros Hm Hh Hn r w. unfold rtry. destruct (Hm r w) as [new [H1 H2]].
  destruct (m r w) as [[[a|e] r'] w']; cbn in H1 |- *.
  - exists new. split; [exact H1|lia].
  - destruct (c (exn_type e)); [|exists new; split; [exact H1|lia]].
    destruct (Hh e r' w') as [new' [H3 H4]]. exists (new' ++ new)%list.
    split; [rewrite H3, H1; apply app_assoc|]. rewrite count_calls_app. lia.
Qed.

End Footprint.

Ltac unbind := cbv beta iota zeta delta [mbind mret D_monad R_monad].

Ltac silent_step :=
  match goal with
  | |- forall _, _ => intro; cbv beta iota
  | |- fp _ 0 (dbind _ _) => apply fp_bind0
  | |- fp _ 0 (dtry _ _ _) => apply fp_try0
  | |- fp _ 0 (dret _) => apply fp_ret
  | |- fp _ 0 (dthrow _) => apply fp_throw
  | |- fp _ 0 time_time => apply fp_time
  | |- fp _ 0 (log _ _) => apply fp_log; solve [reflexivity | auto]
  | |- fp _ 0 (sleep _) => apply fp_sleep; solve [reflexivity | auto]
  | |- fp _ 0 (ask _ _ _) => apply fp_ask; solve [reflexivity | assumption | auto]
  | |- fp _ 0 (perform _ _) => unfold perform
  | |- fp _ 0 (wait_for_element _ _ _) => unfold wait_for_element; unbind
  | |- fp _ 0 (fill_field _ _ _) => unfold fill_field; unbind
  | |- fp _ 0 (getitem _ _) => unfold getitem; destruct (dict_lookup _ _)
  | |- fp _ 0 (safe_click _ _) => cbv [safe_click safe_click_loop seq]; unbind
  | |- fp _ 0 (if ?b then _ else _) => destruct b
  | |- fp _ 0 (match ?x with Some _ => _ | None => _ end) => destruct x
  end.

Ltac silent := unbind; repeat silent_step.

Lemma fp_captcha_wait P env l start t :
  P (FindElement l) = false -> P (Sleep 2) = false -> (forall lv m, P (Log lv m) = false) ->
  forall fuel, fp P 0 (captcha_wait env fuel l start t).
Proof.
  intros H1 H2 H3 fuel. induction fuel as [|f IH]; cbn [captcha_wait]; unfold captcha_poll;
    silent; try apply H3; try assumption.
Qed.

Lemma fp_handle_captcha P env t :
  (forall l, P (FindElement l) = false) -> (forall l, P (IsDisplayed l) = false) ->
  P (Sleep 2) = false -> (forall lv m, P (Log lv m) = false) ->
  fp P 0 (handle_captcha env t).
Proof.
  intros H1 H2 H3 H4. cbv [handle_captcha captcha_indicators captcha_scan]. silent;
    apply fp_captcha_wait; auto.
Qed.

Lemma fp_upload_login env loc site creds :
  locator_eqb (ID, "email") loc = false -> locator_eqb (ID, "password") loc = false ->
  locator_eqb submit_loc loc = false ->
  fp (is_upload_wait loc) 0 (login_to env site creds).
Proof.
  intros H1 H2 H3. unfold login_to. silent; cbn; auto.
Qed.

Lemma app_pre_ex {A} (n n' l t : list A) :
  l = (n' ++ t)%list -> (n ++ l)%list = ((n ++ n') ++ t)%list.
Proof. intros ->. apply app_assoc. Qed.

Ltac upload_step IH :=
  match goal with |- context [upload_images ?env ?loc ?ps ?w2] =>
    let IH1 := fresh "IH1" in let IH2 := fresh "IH2" in let IH3 := fresh "IH3" in
    destruct (IH w2) as [IH1 [new [IH2 IH3]]];
    destruct (upload_images env loc ps w2) as [x w'];
    cbn [fst snd] in IH1, IH2 |- *;
    (split; [exact IH1|]);
    eexists; (split; [rewrite IH2; eapply app_pre_ex; cbn [clock trace driver_set]; prefix|]);
    rewrite count_calls_app, IH3 end; cbn; rewrite locator_eqb_refl; cbn; lia.

Lemma upload_images_count env loc : forall paths w,
  fst (upload_images env loc paths w) = Ok tt /\
  exists new, trace (snd (upload_images env loc paths w)) = (new ++ trace w)%list /\
    count_calls (is_upload_wait loc) new = length paths.
Proof.
  induction paths as [|p ps IH]; intros w.
  - split; [reflexivity|]. exists []. split; reflexivity.
  - cbn [upload_images].
    cbv [mbind mret D_monad dbind dret dtry dthrow wait_for_element perform ask
         log sleep is_exception issue].
    repeat (destruct (raises env _ _ _); cbv beta iota; cbn [clock trace driver_set]);
      try destruct (is_timeout _); upload_step IH.
Qed.

Lemma rfp_le {A} P k n (m : R A) : rfp P k m -> k <= n -> rfp P n m.
Proof. intros H Hk r w. destruct (H r w) as [new [H1 H2]]. exists new. split; [exact H1|lia]. Qed.

Ltac rsilent_step :=
  match goal with
  | |- forall _, _ => intro; cbv beta iota
  | |- rfp _ 0 (rbind _ _) => eapply (rfp_bind _ 0 0 0); [ | | lia]
  | |- rfp _ 0 (rtry _ _ _) => eapply (rfp_try _ 0 0 0); [ | | lia]
  | |- rfp _ 0 (rret _) => apply rfp_ret
  | |- rfp _ 0 (set_success _) => apply rfp_set_success
  | |- rfp _ 0 (set_message _) => apply rfp_set_message
  | |- rfp _ 0 (set_listing_url _) => apply rfp_set_listing_url
  | |- rfp _ 0 get_message => apply rfp_get_message
  | |- rfp _ 0 (lift _) => apply rfp_lift
  | |- rfp _ 0 (if ?b then _ else _) => destruct b
  | |- rfp _ 0 (match ?x with Some _ => _ | None => _ end) => destruct x
  | |- fp _ 0 (handle_captcha _ _) => apply fp_handle_captcha; intros; reflexivity
  | |- fp _ 0 _ => first [assumption | silent_step]
  end.

Ltac rsilent := unbind; repeat rsilent_step.

Lemma post_to_site_uploads env a pd creds :
  let P := is_upload_wait (ad_upload_loc a) in
  fp P 0 (ad_login a creds) -> fp P 0 (ad_form a pd) -> fp P 0 (ad_listing_url a) ->
  locator_eqb submit_loc (ad_upload_loc a) = false ->
  locator_eqb (ad_success_loc a) (ad_upload_loc a) = false ->
  rfp P (length (firstn (ad_image_cap a) (images pd))) (post_to_site env a pd creds).
Proof.
  intros P Hl Hf Hu Hs Hc. set (n := length _).
  unfold post_to_site. unbind.
  eapply (rfp_try _ n 0 n); [| intros; rsilent | lia].
  eapply (rfp_bind _ 0 n n); [rsilent | intros _ | lia].
  eapply (rfp_bind _ 0 n n); [rsilent | intros _ | lia].
  eapply (rfp_bind _ 0 n n); [apply rfp_lift, Hl | intros ok | lia].
  destruct (negb ok); [eapply rfp_le; [apply rfp_set_message | lia]|].
  eapply (rfp_bind _ 0 n n); [rsilent | intros _ | lia].
  eapply (rfp_bind _ 0 n n); [rsilent | intros _ | lia].
  eapply (rfp_bind _ 0 n n); [apply rfp_lift, Hf | intros _ | lia].
  eapply (rfp_bind _ n 0 n); [apply rfp_lift | intros _; rsilent | lia].
  unfold n. destruct (images pd) as [|i is].
  - eapply fp_le; [apply fp_ret | lia].
  - intros w. destruct (upload_images_count env (ad_upload_loc a)
                          (firstn (ad_image_cap a) (i :: is)) w) as [_ [new [H1 H2]]].
    exists new. split; [exact H1|]. unfold P. lia.
Qed.

Lemma fp_njoftime_parts env pd creds :
  let P := is_upload_wait (ad_upload_loc (njoftime env)) in
  fp P 0 (ad_login (njoftime env) creds) /\ fp P 0 (ad_form (njoftime env) pd) /\
  fp P 0 (ad_listing_url (njoftime env)).
Proof.
  intros P. split; [|split].
  - apply fp_upload_login; reflexivity.
  - cbn [ad_form njoftime]. unfold njoftime_form. silent.
  - cbn [ad_listing_url njoftime]. unfold listing_link_url. silent.
Qed.

Lemma fp_merrjep_parts env pd creds :
  let P := is_upload_wait (ad_upload_loc (merrjep env)) in
  fp P 0 (ad_login (merrjep env) creds) /\ fp P 0 (ad_form (merrjep env) pd) /\
  fp P 0 (ad_listing_url (merrjep env)).
Proof.
  intros P. split; [|split].
  - apply fp_upload_login; reflexivity.
  - cbn [ad_form merrjep]. unfold merrjep_form. silent.
  - cbn [ad_listing_url merrjep]. unfold listing_link_url. silent.
Qed.

Lemma fp_indomio_parts env pd creds :
  let P := is_upload_wait (ad_upload_loc (indomio env)) in
  fp P 0 (ad_login (indomio env) creds) /\ fp P 0 (ad_form (indomio env) pd) /\
  fp P 0 (ad_listing_url (indomio env)).
Proof.
  intros P. split; [|split].
  - apply fp_upload_login; reflexivity.
  - cbn [ad_form indomio]. unfold indomio_form. silent.
  - cbn [ad_listing_url indomio]. unfold current_url_if_property. silent.
Qed.

Ltac call_at H Hr Hb e :=
  repeat (apply app_cons_inv in H as [[-> [Ha ->]] | [? [-> H]]];
          [injection Ha as -> ->; cbn in Hb, Hr;
           first [discriminate Hb
                 | congruence
                 | match goal with E : raises _ _ _ _ = Some ?e0 |- _ =>
                     replace e with e0 by congruence; do 2 eexists; reflexivity end] |]).

Lemma upload_attempt_logged env loc p ps w : exists w1 new,
  upload_images env loc (p :: ps) w = upload_images env loc ps w1 /\
  trace w1 = (new ++ trace w)%list /\
  (forall pre t c post e, new = (pre ++ (t, c) :: post)%list -> browser_call c = true ->
     raises env t (post ++ trace w) c = Some e ->
     exists t' rest, new = (t', Log ERROR ("Failed to upload image " ++ p ++ ": " ++ exn_str e)) :: rest).
Proof.
  cbn [upload_images].
  cbv [mbind mret D_monad dbind dret dtry dthrow wait_for_element perform ask
       log sleep is_exception].
  destruct (raises env (clock w) (trace w) (WaitVisible loc 10)) as [e0|] eqn:E0.
  - destruct (is_timeout (exn_type e0)); cbv beta iota.
    + eexists; eexists; split; [reflexivity|]. split; [cbn; prefix|].
      intros pre t c post e H Hb Hr. symmetry in H. cbn in *. call_at H Hr Hb e.
      exfalso; eapply app_cons_not_nil; symmetry; exact H.
    + eexists; eexists; split; [reflexivity|]. split; [cbn; prefix|].
      intros pre t c post e H Hb Hr. symmetry in H. cbn in *. call_at H Hr Hb e.
      exfalso; eapply app_cons_not_nil; symmetry; exact H.
  - set (w1 := issue env (WaitVisible loc 10) w).
    destruct (raises env (clock w1) (trace w1) (SendKeys loc (abspath env p))) as [e1|] eqn:E1;
      cbv beta iota;
      eexists; eexists; (split; [reflexivity|]); (split; [cbn; prefix|]);
      intros pre t c post e H Hb Hr; symmetry in H; subst w1; cbn in *; call_at H Hr Hb e;
      exfalso; eapply app_cons_not_nil; symmetry; exact H.
Qed.

(** C5: with [n] image paths, the njoftime, merrjep and indomio adapters
    wait for their upload input (one wait per upload attempt) at most
    [min n 5], [min n 10] and [min n 15] times; the upload loop never raises
    and makes exactly one attempt per path it is given, whether or not the
    previous uploads failed; an exception raised by a driver call while
    uploading one image is logged as ["Failed to upload image <path>: <e>"],
    the last event of that attempt, and the loop goes on with the next
    path. *)
Theorem image_upload_caps env pd creds :
  rfp (is_upload_wait (XPATH, "//input[@type='file']")) (Nat.min (length (images pd)) 5)
      (_post_to_njoftime_com env pd creds) /\
  rfp (is_upload_wait (XPATH, "//input[@type='file']")) (Nat.min (length (images pd)) 10)
      (_post_to_merrjep_al env pd creds) /\
  rfp (is_upload_wait (ID, "property_images")) (Nat.min (length (images pd)) 15)
      (_post_to_indomio_al env pd creds) /\
  (forall loc paths w,
     fst (upload_images env loc paths w) = Ok tt /\
     exists new, trace (snd (upload_images env loc paths w)) = (new ++ trace w)%list /\
       count_calls (is_upload_wait loc) new = length paths) /\
  (forall loc p ps w, exists w1 new,
     upload_images env loc (p :: ps) w = upload_images env loc ps w1 /\
     trace w1 = (new ++ trace w)%list /\
     (forall pre t c post e, new = (pre ++ (t, c) :: post)%list -> browser_call c = true ->
        raises env t (post ++ trace w) c = Some e ->
        exists t' rest,
          new = (t', Log ERROR ("Failed to upload image " ++ p ++ ": " ++ exn_str e)) :: rest)).
Proof.
  split; [|split; [|split; [|split]]].
  - destruct (fp_njoftime_parts env pd creds) as [H1 [H2 H3]].
    unfold _post_to_njoftime_com. rewrite Nat.min_comm, <- length_firstn.
    apply (post_to_site_uploads env (njoftime env)); auto.
  - destruct (fp_merrjep_parts env pd creds) as [H1 [H2 H3]].
    unfold _post_to_merrjep_al. rewrite Nat.min_comm, <- length_firstn.
    apply (post_to_site_uploads env (merrjep env)); auto.
  - destruct (fp_indomio_parts env pd creds) as [H1 [H2 H3]].
    unfold _post_to_indomio_al. rewrite Nat.min_comm, <- length_firstn.
    apply (post_to_site_uploads env (indomio env)); auto.
  - intros. apply upload_images_count.
  - intros. apply upload_attempt_logged.
Qed.



Lemma rhit_silent {A} P (m : R A) Q : rfp P 0 m -> rhit P m Q.
Proof.
  intros H r w. destruct (H r w) as [n [H1 H2]]. destruct (m r w) as [[x r'] w'].
  exists n. split; [exact H1|lia].
Qed.

Lemma rhit_bind_lift {A B} P (m : D A) (f : A -> R B) Q :
  fp P 0 m -> (forall a, rhit P (f a) Q) -> rhit P (rbind (lift m) f) Q.
Proof.
  intros Hm Hf r w. destruct (Hm w) as [n [H1 H2]]. unfold rbind, lift.
  destruct (m w) as [[a|e] w1]; cbn in H1.
  - specialize (Hf a r w1). destruct (f a r w1) as [[x r'] w'].
    destruct Hf as [n' [H3 H4]]. exists (n' ++ n)%list.
    split; [rewrite H3, H1; apply app_assoc|].
    rewrite count_calls_app. intros H5. apply H4. lia.
  - exists n. split; [exact H1|lia].
Qed.

Lemma rhit_try P (m : R unit) c h (Q : PostResult -> PostResult -> Prop) :
  rhit P m (fun r x r' => x = Ok tt /\ Q r r') -> (forall e, rfp P 0 (h e)) ->
  rhit P (rtry m c h) (fun r x r' => x = Ok tt /\ Q r r').
Proof.
  intros Hm Hh r w. specialize (Hm r w). unfold rtry.
  destruct (m r w) as [[[a|e] r1] w1]; destruct Hm as [n [H1 H2]].
  - exists n. split; assumption.
  - destruct (c (exn_type e)).
    + destruct (Hh e r1 w1) as [n' [H3 H4]]. destruct (h e r1 w1) as [[x r'] w'].
      cbn in H3. exists (n' ++ n)%list. split; [rewrite H3, H1; apply app_assoc|].
      rewrite count_calls_app. intros H5.
      destruct (count_calls P n) eqn:C; [lia|]. destruct H2 as [H2 _]; [lia|discriminate].
    + exists n. split; [exact H1|]. intros H5. destruct (H2 H5); discriminate.
Qed.

Lemma fp_upload_images P env loc :
  P (WaitVisible loc 10) = false -> (forall l k, P (SendKeys l k) = false) ->
  (forall n, P (Sleep n) = false) -> (forall lv m, P (Log lv m) = false) ->
  forall paths, fp P 0 (upload_images env loc paths).
Proof.
  intros H1 H2 H3 H4 paths. induction paths as [|p ps IH]; cbn [upload_images]; silent;
    auto.
Qed.

Lemma rhit_inner env P l M (f : unit -> R unit) :
  P (WaitVisible l 15) = true ->
  (forall t h, exists s, raises env t h (WaitVisible l 15) = Some (mkExn TimeoutException s)) ->
  rhit P (rtry (rbind (lift (perform env (WaitVisible l 15))) f) is_timeout
               (fun _ => set_message M))
       (fun r x r' => x = Ok tt /\ r' = mkResult (site r) (success r) M (listing_url r)).
Proof.
  intros HP Hr r w. destruct (Hr (clock w) (trace w)) as [s Hs].
  unfold rtry, rbind, lift, perform, ask. rewrite Hs. cbn.
  exists [(clock w, WaitVisible l 15)]. split; [reflexivity|].
  unfold count_calls. cbn. rewrite HP. auto.
Qed.

Ltac rsilent2 :=
  unbind;
  repeat first
    [ match goal with
      | |- fp _ 0 (upload_images _ _ _) => apply fp_upload_images; intros; reflexivity
      | |- fp _ 0 (match ?x with [] => _ | _ :: _ => _ end) => destruct x
      end
    | rsilent_step ].

Ltac rhit_tac :=
  repeat match goal with
  | |- forall _, _ => intro; cbv beta iota
  | |- rhit _ (rtry (rbind (lift (perform _ (WaitVisible _ 15))) _) _ _) _ =>
      apply rhit_inner; [solve [cbn; apply locator_eqb_refl] | assumption]
  | |- rhit _ (rtry _ _ _) _ => apply rhit_try; [|intros; rsilent2]
  | |- rhit _ (rbind (lift _) _) _ =>
      apply rhit_bind_lift; [first [assumption | rsilent2] |]
  | |- rhit _ (if ?b then _ else _) _ => destruct b
  | |- rhit _ (set_message _) _ => apply rhit_silent; rsilent2
  end.

Lemma post_to_site_unconfirmed env a pd creds :
  let P := is_success_wait (ad_success_loc a) in
  fp P 0 (ad_login a creds) -> fp P 0 (ad_form a pd) ->
  (forall t h, exists s, raises env t h (WaitVisible (ad_success_loc a) 15)
                          = Some (mkExn TimeoutException s)) ->
  rhit P (post_to_site env a pd creds)
    (fun r x r' => x = Ok tt /\
       r' = mkResult (site r) (success r) "Could not confirm successful posting"
                     (listing_url r)).
Proof.
  intros P Hl Hf Hr. subst P. unfold post_to_site. unbind. rhit_tac.
Qed.

Lemma fp_success_parts env pd creds a :
  a = njoftime env \/ a = merrjep env \/ a = indomio env ->
  fp (is_success_wait (ad_success_loc a)) 0 (ad_login a creds) /\
  fp (is_success_wait (ad_success_loc a)) 0 (ad_form a pd).
Proof.
  intros [ -> | [ -> | -> ]]; cbn [ad_login ad_form ad_success_loc njoftime merrjep indomio];
    unfold _login_to_njoftime, _login_to_merrjep, _login_to_indomio, login_to,
      njoftime_form, merrjep_form, indomio_form; split; silent.
Qed.

(** C7: for a registered site, when the wait for the success indicator
    times out, every run that reaches that wait returns
    [{site; success = False; message = "Could not confirm successful posting";
    listing_url = None}]; that message differs from the other failure
    messages of the adapters. *)
Theorem unconfirmed_submission env s a pd creds w :
  (s = "njoftime.com" /\ a = njoftime env) \/ (s = "merrjep.al" /\ a = merrjep env) \/
  (s = "indomio.al" /\ a = indomio env) ->
  (forall t h, exists m, raises env t h (WaitVisible (ad_success_loc a) 15)
                          = Some (mkExn TimeoutException m)) ->
  (match post_listing env s pd creds w with
   | (x, w') => forall new, trace w' = (new ++ trace w)%list ->
       0 < count_calls (is_success_wait (ad_success_loc a)) new ->
       x = Ok (mkResult s false "Could not confirm successful posting" None)
   end) /\
  Forall (fun m => "Could not confirm successful posting" <> m)
    ["Login failed"; "Captcha handling failed"; "Listing posted successfully"] /\
  (forall e, "Could not confirm successful posting" <> "Error: " ++ e).
Proof.
  intros Hs Hr. split; [|split].
  - assert (Ha : a = njoftime env \/ a = merrjep env \/ a = indomio env) by
      (destruct Hs as [[_ -> ]|[[_ -> ]|[_ -> ]]]; auto).
    destruct (fp_success_parts env pd creds a Ha) as [Hl Hf].
    pose proof (post_to_site_unconfirmed env a pd creds Hl Hf Hr) as HA.
    assert (HB : rhit (is_success_wait (ad_success_loc a))
      (rtry (if String.eqb s "njoftime.com" then _post_to_njoftime_com env pd creds
             else if String.eqb s "merrjep.al" then _post_to_merrjep_al env pd creds
             else if String.eqb s "indomio.al" then _post_to_indomio_al env pd creds
             else set_message ("Unsupported site: " ++ s) ;;
                  m <- get_message ;; lift (log ERROR m))
            is_exception
            (fun e => set_message ("Error: " ++ exn_str e) ;;
                      lift (log EXCEPTION ("Error posting to " ++ s))))
      (fun r x r' => x = Ok tt /\
         r' = mkResult (site r) (success r) "Could not confirm successful posting"
                       (listing_url r))).
    { apply rhit_try; [|intros; rsilent2].
      destruct Hs as [[ -> -> ]|[[ -> -> ]|[ -> -> ]]]; exact HA. }
    specialize (HB (init_result s) w). unfold post_listing.
    destruct (rtry _ _ _ (init_result s) w) as [[x r'] w'].
    destruct HB as [n [H1 H2]].
    destruct x as [u|e]; cbv beta iota; intros new H3 H4; rewrite H1 in H3;
      apply app_inv_tail in H3; subst n; destruct (H2 H4) as [Hx ->];
      [reflexivity | discriminate].
  - repeat constructor; discriminate.
  - intros e. discriminate.
Qed.



Lemma rpost_weaken {A} (m : R A) (Q1 Q2 : PostResult -> res A -> PostResult -> Prop) :
  rpost m Q1 -> (forall r x r', Q1 r x r' -> Q2 r x r') -> rpost m Q2.
Proof. intros H HQ r w. specialize (H r w). destruct (m r w) as [[x r'] w']. auto. Qed.

Lemma rpost_bind_lift {A B} (m : D A) (f : A -> R B) Q :
  (forall a, rpost (f a) Q) -> (forall r e, Q r (Raise e) r) -> rpost (rbind (lift m) f) Q.
Proof.
  intros Hf He r w. unfold rbind, lift. destruct (m w) as [[a|e] w1]; [apply Hf|apply He].
Qed.

Lemma rpost_set_message {Q} m :
  (forall r, Q r (Ok tt) (with_message r m)) -> rpost (set_message m) Q.
Proof. intros H r w. apply H. Qed.

Lemma rpost_inner env l (lu : D (option (option string))) M :
  rpost (rtry (rbind (lift (perform env (WaitVisible l 15)))
                (fun _ => rbind (set_success true) (fun _ =>
                          rbind (set_message "Listing posted successfully") (fun _ =>
                          rbind (lift lu) (fun u =>
                            match u with Some url => set_listing_url url | None => rret tt end)))))
              is_timeout (fun _ => set_message M))
        (fun r x r' => site r' = site r /\
           (x = Ok tt -> r' = with_message r M \/ success r' = true)).
Proof.
  intros r w. unfold rtry, rbind, lift, perform, ask.
  destruct (raises env (clock w) (trace w) (WaitVisible l 15)) as [e|].
  - destruct (is_timeout (exn_type e)); cbn.
    + split; [reflexivity|]. intros _. left. reflexivity.
    + split; [reflexivity|]. intros H. discriminate H.
  - cbn. destruct (lu (issue env (WaitVisible l 15) w)) as [[[[u|]|]|e] w2]; cbn;
      try (split; [reflexivity| intros _; right; reflexivity]).
    destruct (is_timeout (exn_type e)); cbn; (split; [reflexivity|]);
      intros H; [right; reflexivity | discriminate H].
Qed.

Ltac rpost_tac :=
  repeat match goal with
  | |- forall _, _ => intro; cbv beta iota
  | |- rpost (rtry (rbind (lift (perform _ (WaitVisible _ 15))) _) _ _) _ =>
      eapply rpost_weaken; [apply rpost_inner|];
      unfold Q_body, adapter_outcome; intros ? ? ? [? H]; split; [assumption|];
      intros Hx; destruct (H Hx); auto
  | |- rpost (rbind (lift _) _) _ =>
      apply rpost_bind_lift; [|intros; unfold Q_body; split; [reflexivity|discriminate]]
  | |- rpost (if ?b then _ else _) _ => destruct b
  | |- rpost (set_message _) _ =>
      apply rpost_set_message; intros; unfold Q_body, adapter_outcome; split;
        [reflexivity | auto]
  end.

Lemma rpost_try_error (M : R unit) (msg : string) :
  rpost M Q_body ->
  rpost (rtry M is_exception
           (fun e => rbind (set_message ("Error: " ++ exn_str e))
                           (fun _ => lift (log EXCEPTION msg)))) Q_adapter.
Proof.
  intros H r w. specialize (H r w). unfold rtry.
  destruct (M r w) as [[[u|e] r1] w1]; destruct H as [H1 H2].
  - destruct u. unfold Q_adapter. auto.
  - cbn. unfold Q_adapter. split; [reflexivity|]. split; [exact H1|]. right. exists e. reflexivity.
Qed.

Lemma post_to_site_outcome env a pd creds :
  rpost (post_to_site env a pd creds) Q_adapter.
Proof.
  unfold post_to_site. unbind. apply rpost_try_error. rpost_tac.
Qed.

Lemma post_listing_contained env s pd creds w :
  match post_listing env s pd creds w with
  | (Ok r, _) =>
      site r = s /\
      (success r = false ->
       In (message r) ["Login failed"; "Captcha handling failed";
                       "Could not confirm successful posting"; "Unsupported site: " ++ s] \/
       exists e : exn, message r = "Error: " ++ exn_str e)
  | (Raise _, _) => False
  end.
Proof.
  unfold post_listing.
  assert (HA : forall a, rpost (post_to_site env a pd creds) Q_adapter)
    by (intros; apply post_to_site_outcome).
  destruct (String.eqb s "njoftime.com");
    [|destruct (String.eqb s "merrjep.al");
      [|destruct (String.eqb s "indomio.al")]];
    unfold _post_to_njoftime_com, _post_to_merrjep_al, _post_to_indomio_al;
    try (unfold rtry;
         match goal with |- context [post_to_site env ?a pd creds] =>
           specialize (HA a (init_result s) w); destruct (post_to_site env a pd creds (init_result s) w) as [[x r'] w'] end;
         destruct HA as [-> [H1 H2]]; cbn in H1 |- *; split; [exact H1|];
         intros Hs; destruct H2 as [H2|H2]; [|right; exact H2]; left;
         unfold adapter_outcome, with_message in H2;
         destruct H2 as [->|[->|[->|H2]]]; cbn; [auto| auto 6 | auto 6 | congruence]).
  cbn. split; [reflexivity|]. intros _. left. cbn. auto 6.
Qed.





(** A run on a driver where everything succeeds. *)
Lemma happy_path_njoftime : fst (post_listing happy "njoftime.com" pd0 creds0 w0) =
  Ok (mkResult "njoftime.com" true "Listing posted successfully" (Some "https://njoftime.com/listing/1")).
Proof. vm_compute. reflexivity. Qed.


(** C9: once the success indicator has been seen, a driver error while
    looking for the listing link leaves [success = True] with the message
    ["Error: session lost"]. *)
Lemma listing_url_error_after_success : fst (post_listing links_fail "njoftime.com" pd0 creds0 w0) =
  Ok (mkResult "njoftime.com" true "Error: session lost" None).
Proof. vm_compute. reflexivity. Qed.

(** C6 counterexample: with empty credentials, a failing navigation to the
    login page gives the message ["Error: ..."], not ["Login failed"]. *)
Lemma missing_credentials_page_error : fst (post_listing login_page_down "merrjep.al" pd0 [] w0) =
  Ok (mkResult "merrjep.al" false "Error: net::ERR_NAME_NOT_RESOLVED" None).
Proof. vm_compute. reflexivity. Qed.

(** C3 counterexample: a click raising an exception that is not a Selenium
    [WebDriverException] propagates out of [safe_click]. *)
Lemma safe_click_propagates_other : fst (safe_click click_other submit_loc w0) = Raise (mkExn OtherException "connection reset").
Proof. vm_compute. reflexivity. Qed.

(** C4 counterexample: an indicator that is displayed and disappears at
    time 100 makes [handle_captcha 60] return [False]. *)
Lemma captcha_gone_after_deadline :
  raises slow_captcha 0 [] (FindElement (ID, "captcha")) = None /\
  raises slow_captcha 100 [] (FindElement (ID, "captcha")) = Some nsee /\
  fst (handle_captcha slow_captcha 60 w0) = Ok false.
Proof. vm_compute. auto. Qed.

(** C8: when [maximize_window] raises after the driver has started,
    [__enter__] raises, the [with] statement does not call [__exit__], and
    [main] returns with a started driver that was never quit. *)
Lemma enter_failure_leaks_driver : match main_run maximize_fails "Chrome" true ["njoftime.com"] pd0 (ConfigOk []) w0 with
  | (x, w') => x = Ok tt /\ driver_set w' = true /\
      existsb (fun e => call_eqb (snd e) Quit) (trace w') = false /\
      existsb (fun e => call_eqb (snd e) (StartDriver "chrome" true)) (trace w') = true
  end.
Proof. vm_compute. auto. Qed.

(** C6 (amended): for a registered site and credentials that are empty or
    lack a username or a password, the only driver call is the navigation to
    the login page; the result has [success = False] and the message
    ["Login failed"] when that navigation succeeds, and
    ["Error: " ++ str(e)] when it raises [e]. *)
Theorem missing_credentials env s a pd creds w :
  (s = "njoftime.com" /\ a = njoftime env) \/ (s = "merrjep.al" /\ a = merrjep env) \/
  (s = "indomio.al" /\ a = indomio env) ->
  creds = [] \/ dict_has "username" creds = false \/ dict_has "password" creds = false ->
  match post_listing env s pd creds w with
  | (x, w') => exists new, trace w' = (new ++ trace w)%list /\
      browser_calls new = [(clock w, Get (ad_login_url a))] /\
      x = Ok (mkResult s false
                (match raises env (clock w) (trace w) (Get (ad_login_url a)) with
                 | None => "Login failed"
                 | Some e => "Error: " ++ exn_str e
                 end) None)
  end.
Proof.
  intros Hs Hc.
  assert (Hb : (match creds with [] => true | _ => false end
                || negb (dict_has "username" creds) || negb (dict_has "password" creds))
               = true).
  { destruct Hc as [->|[H|H]]; [reflexivity| |]; rewrite H; cbn [negb];
      rewrite ?orb_true_r; reflexivity. }
  destruct Hs as [[-> ->]|[[-> ->]|[-> ->]]];
    cbv beta iota zeta delta [post_listing _post_to_njoftime_com _post_to_merrjep_al
      _post_to_indomio_al post_to_site njoftime merrjep indomio ad_login ad_login_url
      ad_name _login_to_njoftime _login_to_merrjep _login_to_indomio login_to
      mbind mret D_monad R_monad dbind dret dtry dthrow rbind rret rtry lift
      set_message perform ask log String.eqb Ascii.eqb Bool.eqb init_result];
    rewrite Hb;
    destruct (raises env (clock w) (trace w) _) as [e|]; cbn;
    (eexists; split; [prefix| split; reflexivity]).
Qed.

(** The hypotheses of [post_listing_unsupported] hold for [unknown.al]. *)
Lemma post_listing_unsupported_witness : "unknown.al" <> "njoftime.com" /\ "unknown.al" <> "merrjep.al" /\
  "unknown.al" <> "indomio.al" /\
  post_listing happy "unknown.al" pd0 creds0 w0 =
    (Ok (mkResult "unknown.al" false ("Unsupported site: " ++ "unknown.al") None),
     mkWorld 0 [(0, Log ERROR ("Unsupported site: " ++ "unknown.al"))] false).
Proof.
  split; [discriminate|]. split; [discriminate|]. split; [discriminate|].
  apply (post_listing_unsupported happy "unknown.al" pd0 creds0 w0); discriminate.
Defined.

(** The hypotheses of [missing_credentials] hold for njoftime.com with empty credentials. *)
Lemma missing_credentials_witness :
  (("njoftime.com" = "njoftime.com" /\ njoftime happy = njoftime happy) \/
   ("njoftime.com" = "merrjep.al" /\ njoftime happy = merrjep happy) \/
   ("njoftime.com" = "indomio.al" /\ njoftime happy = indomio happy)) /\
  ([] : Creds) = [] /\
  match post_listing happy "njoftime.com" pd0 [] w0 with
  | (x, w') => exists new, trace w' = (new ++ trace w0)%list /\
      browser_calls new = [(clock w0, Get (ad_login_url (njoftime happy)))] /\
      x = Ok (mkResult "njoftime.com" false
                (match raises happy (clock w0) (trace w0) (Get (ad_login_url (njoftime happy))) with
                 | None => "Login failed"
                 | Some e => "Error: " ++ exn_str e
                 end) None)
  end.
Proof.
  split; [left; split; reflexivity|]. split; [reflexivity|].
  apply (missing_credentials happy "njoftime.com" (njoftime happy) pd0 [] w0).
  - left. split; reflexivity.
  - left. reflexivity.
Defined.

(** The hypotheses of [unconfirmed_submission] hold on [no_confirmation], which does reach the wait. *)
Lemma unconfirmed_submission_witness :
  (forall t h, exists m, raises no_confirmation t h
     (WaitVisible (ad_success_loc (indomio no_confirmation)) 15) = Some (mkExn TimeoutException m)) /\
  fst (post_listing no_confirmation "indomio.al" pd0 creds0 w0)
    = Ok (mkResult "indomio.al" false "Could not confirm successful posting" None) /\
  ((match post_listing no_confirmation "indomio.al" pd0 creds0 w0 with
   | (x, w') => forall new, trace w' = (new ++ trace w0)%list ->
       0 < count_calls (is_success_wait (ad_success_loc (indomio no_confirmation))) new ->
       x = Ok (mkResult "indomio.al" false "Could not confirm successful posting" None)
   end) /\
  Forall (fun m => "Could not confirm successful posting" <> m)
    ["Login failed"; "Captcha handling failed"; "Listing posted successfully"] /\
  (forall e, "Could not confirm successful posting" <> "Error: " ++ e)).
Proof.
  split; [intros t h; exists "no alert-success"; reflexivity|].
  split; [vm_compute; reflexivity|].
  apply (unconfirmed_submission no_confirmation "indomio.al" (indomio no_confirmation) pd0 creds0 w0).
  - right. right. split; reflexivity.
  - intros t h. exists "no alert-success". reflexivity.
Defined.

(** ** Further properties of the program *)

Lemma lstrip_shape s :
  lstrip s = [] \/ exists a t, lstrip s = a :: t /\ is_space a = false.
Proof.
  induction s as [|a s IH]; cbn; [now left|].
  destruct (is_space a) eqn:E; [exact IH|right; eauto].
Qed.

Lemma rstrip_nonspace a t : is_space a = false -> rstrip (a :: t) = a :: rstrip t.
Proof. intros E. cbn. rewrite E, andb_false_r. reflexivity. Qed.

Lemma rstrip_idem s : rstrip (rstrip s) = rstrip s.
Proof.
  induction s as [|a s IH]; [reflexivity|]. cbn.
  destruct (match rstrip s with [] => true | _ => false end && is_space a) eqn:E; [reflexivity|].
  cbn. rewrite IH, E. reflexivity.
Qed.

Lemma strip_idem s : strip (strip s) = strip s.
Proof.
  unfold strip. destruct (lstrip_shape s) as [->|[a [t [-> E]]]]; [reflexivity|].
  rewrite (rstrip_nonspace a t E). cbn [lstrip]. rewrite E.
  rewrite (rstrip_nonspace a _ E), rstrip_idem. reflexivity.
Qed.

Lemma lstrip_chars s a : In a (lstrip s) -> In a s.
Proof.
  induction s as [|b s IH]; cbn; [tauto|].
  destruct (is_space b); cbn; intuition.
Qed.

Lemma rstrip_chars s a : In a (rstrip s) -> In a s.
Proof.
  induction s as [|b s IH]; cbn; [tauto|].
  destruct (match rstrip s with [] => true | _ => false end && is_space b); cbn; intuition.
Qed.

Lemma strip_chars s a : In a (strip s) -> In a s.
Proof. intros H. apply lstrip_chars, rstrip_chars, H. Qed.

Lemma split_on_no_sep sep s : forall p, In p (split_on sep s) -> ~ In sep p.
Proof.
  induction s as [|a s IH]; intros p; cbn.
  - intros [<-|[]]. cbn. tauto.
  - destruct (Z.eqb a sep) eqn:E.
    + intros [<-|H]; [cbn; tauto|]. now apply IH.
    + destruct (split_on sep s) as [|q qs] eqn:Es.
      * intros [<-|[]]. cbn. intros [H|[]]. subst. now rewrite Z.eqb_refl in E.
      * intros [<-|H].
        -- cbn. intros [H|H]; [subst; now rewrite Z.eqb_refl in E|].
           apply (IH q); [now left|exact H].
        -- apply IH. now right.
Qed.

Lemma split_on_single sep f : ~ In sep f -> split_on sep f = [f].
Proof.
  induction f as [|a f IH]; intros H; [reflexivity|]. cbn in H |- *.
  destruct (Z.eqb a sep) eqn:E.
  - apply Z.eqb_eq in E. subst. tauto.
  - rewrite IH by tauto. reflexivity.
Qed.

Lemma split_on_app sep f t : ~ In sep f -> split_on sep (f ++ sep :: t)%list = f :: split_on sep t.
Proof.
  induction f as [|a f IH]; intros H; cbn.
  - rewrite Z.eqb_refl. reflexivity.
  - cbn in H. destruct (Z.eqb a sep) eqn:E.
    + apply Z.eqb_eq in E. subst. tauto.
    + rewrite IH by tauto. reflexivity.
Qed.

Lemma split_on_join fs : forall f,
  Forall (fun g => ~ In 44%Z g) (f :: fs) ->
  split_on 44 (py_join [44; 32]%Z (f :: fs)) = f :: map (cons 32%Z) fs.
Proof.
  induction fs as [|g fs IH]; intros f Hf; inversion Hf as [|? ? Hf1 Hf2]; subst.
  - cbn [py_join map]. now apply split_on_single.
  - change (py_join [44; 32]%Z (f :: g :: fs)) with (f ++ 44%Z :: 32%Z :: py_join [44; 32]%Z (g :: fs))%list.
    rewrite split_on_app by exact Hf1. cbn [split_on].
    rewrite (IH g Hf2). reflexivity.
Qed.

Lemma strip_space g : strip (32%Z :: g) = strip g.
Proof. reflexivity. Qed.

Lemma lower_app a b : lower (a ++ b) = (lower a ++ lower b)%string.
Proof. induction a as [|c a IH]; cbn; [reflexivity|now rewrite IH]. Qed.

Lemma lower_ascii_idem a : lower_ascii (lower_ascii a) = lower_ascii a.
Proof.
  unfold lower_ascii.
  destruct (Nat.leb 65 (nat_of_ascii a) && Nat.leb (nat_of_ascii a) 90) eqn:E; [|now rewrite E].
  apply andb_true_iff in E as [E1 E2]. apply Nat.leb_le in E1, E2.
  rewrite nat_ascii_embedding by lia.
  replace (Nat.leb (nat_of_ascii a + 32) 90) with false by (symmetry; apply Nat.leb_gt; lia).
  rewrite andb_false_r. reflexivity.
Qed.

Lemma lower_idem s : lower (lower s) = lower s.
Proof. induction s as [|a s IH]; cbn; [reflexivity|now rewrite lower_ascii_idem, IH]. Qed.

Lemma substring_app x y n : substring (String.length x) n (x ++ y) = substring 0 n y.
Proof. induction x as [|a x IH]; cbn; [reflexivity|exact IH]. Qed.

Lemma substring_full y : substring 0 (String.length y) y = y.
Proof. induction y as [|a y IH]; cbn; [reflexivity|now rewrite IH]. Qed.

Lemma length_app_str x y : String.length (x ++ y) = String.length x + String.length y.
Proof. induction x as [|a x IH]; cbn; [reflexivity|now rewrite IH]. Qed.

Lemma ends_with_app suf x : ends_with suf (x ++ suf) = true.
Proof.
  unfold ends_with. rewrite length_app_str.
  replace (String.length x + String.length suf - String.length suf) with (String.length x) by lia.
  rewrite substring_app, substring_full, String.eqb_refl, andb_true_r.
  apply Nat.leb_le. lia.
Qed.

(** The features answer: every feature that [get_property_details_interactively]
    keeps is non-empty, has no leading or trailing whitespace (the code
    points of [str.isspace], Unicode ones included) and contains no comma
    (code point 44). *)
Theorem parse_features_clean s f :
  In f (parse_features s) -> f <> [] /\ strip f = f /\ ~ In 44%Z f.
Proof.
  unfold parse_features. intros H. apply in_map_iff in H as [g [<- Hg]].
  apply filter_In in Hg as [Hg Hne].
  split; [destruct (strip g); [discriminate|congruence]|].
  split; [apply strip_idem|].
  intros Hc. apply strip_chars in Hc. exact (split_on_no_sep _ _ _ Hg Hc).
Qed.

(** Typing the features joined by [", "] gives them back, provided each
    is non-empty, has no surrounding whitespace and contains no comma. *)
Theorem parse_features_join fs :
  Forall (fun f => f <> [] /\ strip f = f /\ ~ In 44%Z f) fs ->
  parse_features (py_join [44; 32]%Z fs) = fs.
Proof.
  intros H. destruct fs as [|f fs]; [reflexivity|].
  unfold parse_features. rewrite split_on_join.
  2:{ eapply Forall_impl; [|exact H]. cbn. tauto. }
  inversion H as [|? ? [Hf1 [Hf2 _]] H2]; subst.
  cbn [filter map]. rewrite Hf2. destruct f as [|c f]; [congruence|]. cbn [map].
  rewrite Hf2. f_equal. clear Hf1 Hf2 H.
  induction fs as [|g fs IH]; [reflexivity|].
  inversion H2 as [|? ? [Hg1 [Hg2 _]] H3]; subst.
  cbn [filter map]. rewrite strip_space, Hg2. destruct g as [|d g]; [congruence|].
  cbn [map]. rewrite strip_space, Hg2, IH by exact H3. reflexivity.
Qed.

(** The images directory filter keeps every file whose extension is .png,
    .jpg or .jpeg in any mix of upper and lower case, and it ignores case. *)
Theorem is_image_file_ext base ext :
  In (lower ext) [".png"; ".jpg"; ".jpeg"] ->
  is_image_file (base ++ ext) = true /\ is_image_file (lower (base ++ ext)) = true.
Proof.
  intros H. unfold is_image_file. rewrite lower_idem, lower_app.
  assert (K : ends_with ".png" (lower base ++ lower ext) || ends_with ".jpg" (lower base ++ lower ext)
              || ends_with ".jpeg" (lower base ++ lower ext) = true).
  { destruct H as [<-|[<-|[<-|[]]]]; rewrite ends_with_app; rewrite ?orb_true_r; reflexivity. }
  split; exact K.
Qed.

Lemma is_image_file_ext_witness :
  In (lower ".JPG") [".png"; ".jpg"; ".jpeg"] /\
  is_image_file ("IMG_0001" ++ ".JPG") = true /\ is_image_file (lower ("IMG_0001" ++ ".JPG")) = true.
Proof.
  split; [cbn; tauto|]. apply (is_image_file_ext "IMG_0001" ".JPG"). cbn. tauto.
Defined.

Lemma parse_features_join_witness :
  Forall (fun f => f <> [] /\ strip f = f /\ ~ In 44%Z f)
    [pystr_of "Balcony"; pystr_of "Air Conditioning"] /\
  parse_features (py_join [44; 32]%Z [pystr_of "Balcony"; pystr_of "Air Conditioning"])
    = [pystr_of "Balcony"; pystr_of "Air Conditioning"].
Proof.
  assert (H : Forall (fun f => f <> [] /\ strip f = f /\ ~ In 44%Z f)
    [pystr_of "Balcony"; pystr_of "Air Conditioning"]).
  { repeat constructor; try discriminate; vm_compute; intuition discriminate. }
  split; [exact H|]. apply (parse_features_join _ H).
Defined.

Lemma parse_features_clean_witness :
  In (pystr_of "Balcony") (parse_features (pystr_of " Balcony" ++ [160%Z] ++ pystr_of ",, Parking,")%list) /\
  (pystr_of "Balcony" <> [] /\ strip (pystr_of "Balcony") = pystr_of "Balcony" /\
   ~ In 44%Z (pystr_of "Balcony")).
Proof.
  assert (H : In (pystr_of "Balcony")
                 (parse_features (pystr_of " Balcony" ++ [160%Z] ++ pystr_of ",, Parking,")%list))
    by (vm_compute; left; reflexivity).
  split; [exact H|]. apply (parse_features_clean _ _ H).
Defined.
















(** An exception of [load_credentials] does not depend on the state, and
    leaves it unchanged. *)
Lemma load_credentials_raise s cfg w e w1 :
  load_credentials s cfg w = (Raise e, w1) ->
  forall w', load_credentials s cfg w' = (Raise e, w').
Proof.
  intros H w'. revert H.
  destruct cfg as [e0|e0|e0|[items|text|tn]|c]; unfold load_credentials, json_contains; mon;
    repeat match goal with
    | |- context [if ?b then _ else _] => destruct b
    | |- context [match config_lookup ?a ?b with _ => _ end] => destruct (config_lookup a b)
    end; intros H; first [discriminate H | injection H as <- _; reflexivity].
Qed.






(** The loop of [main] returns one result per requested site, in the
    requested order; it raises only with an exception that
    [load_credentials] raises, whatever the state, for one of the requested
    sites. *)
Theorem post_sites_order env pd cfg sites : forall w,
  match post_sites env sites pd cfg w with
  | (Ok rs, _) => map site rs = sites
  | (Raise e, _) => exists s, In s sites /\ forall w', load_credentials s cfg w' = (Raise e, w')
  end.
Proof.
  induction sites as [|s ss IH]; intros w; [reflexivity|].
  cbn [post_sites]. unbind. unfold dbind at 1.
  destruct (load_credentials s cfg w) as [[c|e] w1] eqn:HL.
  2: { cbv beta iota. exists s. split; [left; reflexivity|].
       exact (load_credentials_raise _ _ _ _ _ HL). }
  unfold dbind at 1. pose proof (post_listing_contained env s pd c w1) as HP.
  destruct (post_listing env s pd c w1) as [[r|e] w2]; [|contradiction].
  destruct HP as [Hs _]. cbn. unfold dbind.
  specialize (IH (mkWorld (clock w2 + 2) ((clock w2, Sleep 2) :: trace w2) (driver_set w2))).
  destruct (post_sites _ _ _ _ _) as [[rs|e] w3].
  - cbn. now rewrite Hs, IH.
  - destruct IH as [s' [Hin Hr]]. exists s'. split; [right; exact Hin | exact Hr].
Qed.

(** When the login helper reports failure, the adapter stops: it does not
    open the posting page, makes no further call and only sets the message
    to ["Login failed"]. *)
Theorem login_failure_stops env a pd creds r w :
  fst (perform env (Get (ad_login_url a)) w) = Ok tt ->
  let w1 := snd ((perform env (Get (ad_login_url a)) ;;
                  log INFO ("Navigating to " ++ ad_name a ++ " login page")) w) in
  fst (ad_login a creds w1) = Ok false ->
  post_to_site env a pd creds r w = (Ok tt, with_message r "Login failed", snd (ad_login a creds w1)).
Proof.
  intros HG. cbv zeta. unfold post_to_site.
  cbv [mbind mret D_monad R_monad rtry rbind lift dbind log].
  destruct (perform env (Get (ad_login_url a)) w) as [[[]|e] w0]; cbn [fst] in HG;
    [|discriminate].
  cbv beta iota. intros HL. cbn [snd] in HL |- *.
  match goal with |- context [ad_login a creds ?w1] =>
    destruct (ad_login a creds w1) as [[ok|e] w2] end; cbn [fst] in HL; [|discriminate].
  injection HL as ->. reflexivity.
Qed.

(** The login helpers, with credentials that are empty or lack a username
    or a password, return [False] after one error log line and no driver
    call. *)
Theorem login_missing_credentials env site creds w :
  creds = [] \/ dict_has "username" creds = false \/ dict_has "password" creds = false ->
  login_to env site creds w
    = (Ok false, mkWorld (clock w)
                   ((clock w, Log ERROR ("Missing " ++ site ++ " credentials")) :: trace w)
                   (driver_set w)).
Proof.
  intros H. unfold login_to.
  replace (match creds with [] => true | _ => false end
           || negb (dict_has "username" creds) || negb (dict_has "password" creds)) with true.
  - reflexivity.
  - destruct H as [->|[->| ->]]; [reflexivity| |]; rewrite ?orb_true_r; reflexivity.
Qed.





Lemma locator_eqb_eq l1 l2 : locator_eqb l1 l2 = true -> l1 = l2.
Proof.
  destruct l1 as [b1 s1], l2 as [b2 s2]. unfold locator_eqb. cbn.
  intros H. apply andb_true_iff in H as [H1 H2]. apply String.eqb_eq in H2. subst.
  destruct b1, b2; try discriminate; reflexivity.
Qed.

Lemma count_calls_in P l : 0 < count_calls P l -> exists e, In e l /\ P (snd e) = true.
Proof.
  induction l as [|e l IH]; cbn; [lia|]. unfold count_calls in *. cbn.
  destruct (P (snd e)) eqn:E; cbn; intros H.
  - exists e. auto.
  - destruct (IH H) as [e' [H1 H2]]. exists e'. auto.
Qed.









(** Without [--interactive], when the property details cannot be loaded
    (unreadable or invalid file, no ["property_details"] entry, or a top
    level that is not an object), [main] logs one error and returns without
    starting a browser. *)
Theorem main_without_details env host args g w :
  isfile host (arg_config args) = true -> arg_interactive args = false ->
  (forall es d, read_json host (arg_config args) <> JsonOk es (Some d)) ->
  main env host args g w =
    (Ok tt, mkWorld (clock w)
              ((clock w, Log ERROR
                  (match read_json host (arg_config args) with
                   | JsonMissing e | JsonBad e | JsonOther e =>
                       "Error loading property details: " ++ exn_str e
                   | JsonNotObject (JArray items) =>
                       if existsb (fun i => match i with
                                            | Some x => String.eqb x "property_details"
                                            | None => false end) items
                       then "Error loading property details: "
                            ++ "list indices must be integers or slices, not str"
                       else "No property details found in config"
                   | JsonNotObject (JString text) =>
                       if str_contains "property_details" text
                       then "Error loading property details: "
                            ++ "string indices must be integers, not 'str'"
                       else "No property details found in config"
                   | JsonNotObject (JScalar tn) =>
                       "Error loading property details: "
                       ++ ("argument of type '" ++ tn ++ "' is not iterable")
                   | JsonOk _ _ => "No property details found in config"
                   end)) :: trace w) (driver_set w)).
Proof.
  intros Hf Hi Hd. unfold main. rewrite Hf, Hi. cbn [negb].
  destruct (read_json host (arg_config args)) as [e|e|e|[items|text|tn]|es [d|]];
    try (exfalso; exact (Hd es d eq_refl));
    unfold load_property_details, json_contains; mon; cbv [is_exception];
    repeat match goal with |- context [if ?b then _ else _] => destruct b end; reflexivity.
Qed.




Lemma login_failure_stops_witness :
  fst (perform happy (Get (ad_login_url (njoftime happy))) w0) = Ok tt /\
  (let w1 := snd ((perform happy (Get (ad_login_url (njoftime happy))) ;;
                   log INFO ("Navigating to " ++ ad_name (njoftime happy) ++ " login page")) w0) in
   fst (ad_login (njoftime happy) [] w1) = Ok false /\
   post_to_site happy (njoftime happy) pd0 [] (init_result "njoftime.com") w0
     = (Ok tt, with_message (init_result "njoftime.com") "Login failed",
        snd (ad_login (njoftime happy) [] w1))).
Proof.
  assert (H1 : fst (perform happy (Get (ad_login_url (njoftime happy))) w0) = Ok tt)
    by (vm_compute; reflexivity).
  split; [exact H1|]. cbv zeta.
  assert (H2 : fst (ad_login (njoftime happy) []
                 (snd ((perform happy (Get (ad_login_url (njoftime happy))) ;;
                        log INFO ("Navigating to " ++ ad_name (njoftime happy) ++ " login page")) w0)))
               = Ok false) by (vm_compute; reflexivity).
  split; [exact H2|].
  exact (login_failure_stops happy (njoftime happy) pd0 [] (init_result "njoftime.com") w0 H1 H2).
Defined.

Lemma login_missing_credentials_witness :
  ([("username", "agent")] = [] \/ dict_has "username" [("username", "agent")] = false \/
   dict_has "password" [("username", "agent")] = false) /\
  login_to happy "njoftime.com" [("username", "agent")] w0
    = (Ok false, mkWorld (clock w0)
                   ((clock w0, Log ERROR ("Missing " ++ "njoftime.com" ++ " credentials")) :: trace w0)
                   (driver_set w0)).
Proof.
  assert (H : [("username", "agent")] = [] \/ dict_has "username" [("username", "agent")] = false \/
              dict_has "password" [("username", "agent")] = false) by (right; right; reflexivity).
  split; [exact H|]. exact (login_missing_credentials happy "njoftime.com" _ w0 H).
Defined.


Lemma main_without_details_witness :
  isfile no_details_host (arg_config default_args) = true /\
  arg_interactive default_args = false /\
  (forall es d, read_json no_details_host (arg_config default_args) <> JsonOk es (Some d)) /\
  main happy no_details_host default_args (dret pd0) w0 =
    (Ok tt, mkWorld (clock w0)
              ((clock w0, Log ERROR
                  (match read_json no_details_host (arg_config default_args) with
                   | JsonMissing e | JsonBad e | JsonOther e =>
                       "Error loading property details: " ++ exn_str e
                   | JsonNotObject (JArray items) =>
                       if existsb (fun i => match i with
                                            | Some x => String.eqb x "property_details"
                                            | None => false end) items
                       then "Error loading property details: "
                            ++ "list indices must be integers or slices, not str"
                       else "No property details found in config"
                   | JsonNotObject (JString text) =>
                       if str_contains "property_details" text
                       then "Error loading property details: "
                            ++ "string indices must be integers, not 'str'"
                       else "No property details found in config"
                   | JsonNotObject (JScalar tn) =>
                       "Error loading property details: "
                       ++ ("argument of type '" ++ tn ++ "' is not iterable")
                   | JsonOk _ _ => "No property details found in config"
                   end)) :: trace w0) (driver_set w0)).
Proof.
  assert (H1 : isfile no_details_host (arg_config default_args) = true) by reflexivity.
  assert (H2 : arg_interactive default_args = false) by reflexivity.
  assert (H3 : forall es d, read_json no_details_host (arg_config default_args) <> JsonOk es (Some d))
    by (intros es d; cbn; congruence).
  split; [exact H1|]. split; [exact H2|]. split; [exact H3|].
  exact (main_without_details happy no_details_host default_args (dret pd0) w0 H1 H2 H3).
Defined.
